(** * The nRF5 entropy driver: ring pools, interrupt handler, consumer API

    A shallow embedding of [drivers/entropy/entropy_nrf5.c].

    - [u8_t] and [u16_t] values are integers in [Z]; every place where the C
      code narrows a value to eight or sixteen bits is written out with
      [u8] / [u16].
    - [struct rng_pool] is a record; its flexible array member [rand] is a
      [list Z] of [count] slots.
    - The caller's buffer is a [list Z]; the pointers [d] and [s] of
      [rng_pool_get] are indices into the destination and into [rand].
    - Writes to the RNG peripheral's task registers and semaphore operations
      are recorded as events, so that statements about "start", "stop" and
      "wake" can be made about what a function did.
    - Parameters of type [u8_t] and [u16_t] are taken to hold a value of
      their type; where C converts at a call ([u16_t len] passed as
      [u8_t octets], [int byte] passed as [u8_t byte]) the conversion is
      written at the call.
    - The members [isr] and [thr] of the device data are [isr_pool] and
      [thr_pool] here, [isr] being the handler. *)

From stdpp Require Import base numbers list.

Local Open Scope Z_scope.

(** ** Machine integers *)

Definition u8 (z : Z) : Z := z mod 256.
Definition u16 (z : Z) : Z := z mod 65536.

Definition UINT8_MAX : Z := 255.

(** Modelled from the spec: the error codes of [errno.h], a header that is
    not among the driver's sources.  Section 7 calls them [NoBufferSpace]
    ([ENOBUFS]) and [Busy] ([EBUSY]); [EAGAIN] is the "not ready" of the
    sampling primitive.  The numbers are those of the minimal libc; the
    development only relies on them being positive and pairwise distinct. *)
Definition EAGAIN : Z := 11.
Definition EBUSY : Z := 16.
Definition ENOBUFS : Z := 55.

(** Modelled from the spec: the "busy-wait flag" of section 4.5, declared in
    [entropy.h] (not among the sources) as bit 0 of [flags]. *)
Definition ENTROPY_BUSYWAIT : Z := 1.

(** ** Memory accesses through an index

    An access outside the array is undefined behaviour in C.  In the model a
    read outside yields 0 and a write outside is dropped; every theorem below
    that speaks about buffer contents keeps the accesses inside. *)

Definition mem_load (mem : list Z) (i : Z) : Z :=
  if bool_decide (0 ≤ i) then default 0 (mem !! Z.to_nat i) else 0.

Definition mem_store (mem : list Z) (i : Z) (v : Z) : list Z :=
  if bool_decide (0 ≤ i) then <[Z.to_nat i := v]> mem else mem.

(** ** The RNG peripheral's tasks and the events a driver function emits *)

Inductive rng_task := NRF_RNG_TASK_START | NRF_RNG_TASK_STOP.

Inductive sem_id := SEM_LOCK | SEM_SYNC.

Inductive event :=
| EvTask (t : rng_task)
| EvGive (s : sem_id)
| EvTake (s : sem_id).

Definition is_start (t : rng_task) : bool :=
  match t with NRF_RNG_TASK_START => true | NRF_RNG_TASK_STOP => false end.

Definition is_wake (e : event) : bool :=
  match e with EvGive SEM_SYNC => true | _ => false end.

(** ** struct rng_pool *)

Record rng_pool := RngPool {
  count : Z;
  threshold : Z;
  first : Z;
  last : Z;
  rand : list Z
}.

Definition set_first (rng : rng_pool) (f : Z) : rng_pool :=
  RngPool (count rng) (threshold rng) f (last rng) (rand rng).

Definition set_last (rng : rng_pool) (l : Z) : rng_pool :=
  RngPool (count rng) (threshold rng) (first rng) l (rand rng).

Definition set_rand (rng : rng_pool) (r : list Z) : rng_pool :=
  RngPool (count rng) (threshold rng) (first rng) (last rng) r.

(** [while (n--) { *(--d) = *s++; }] : the copy loop that occurs three times
    in [rng_pool_get].  It returns the destination and both pointers. *)
Fixpoint copy_octets (n : nat) (src : list Z) (s : Z) (dst : list Z) (d : Z)
  : list Z * Z * Z :=
  match n with
  | O => (dst, d, s)
  | S n' =>
      let d' := d - 1 in
      copy_octets n' src (s + 1) (mem_store dst d' (mem_load src s)) d'
  end.

Record pool_get_out := PoolGetOut {
  get_ret : Z;                  (* the returned [octets] *)
  get_rng : rng_pool;           (* the pool afterwards *)
  get_buf : list Z;             (* the caller's buffer afterwards *)
  get_tasks : list rng_task     (* tasks triggered on the peripheral *)
}.

(** [rng_pool_get] (lines 111-186).  [rand_] is the parameter [rand], the
    caller's buffer; [d] and [s] are the two pointers. *)
Definition rng_pool_get (rng : rng_pool) (octets : Z) (rand_ : list Z)
  : pool_get_out :=
  let first0 := first rng in
  let last0 := last rng in
  let d := octets in
  let s := first0 in
  let '(octets', remaining, first', buf) :=
    if first0 <=? last0 then
      (* copy octets from contiguous memory *)
      let avail := u8 (last0 - first0) in
      let '(remaining, avail) :=
        if octets <? avail then (u8 (avail - octets), octets) else (0, avail) in
      let first1 := u8 (first0 + avail) in
      let octets1 := u8 (octets - avail) in
      let '(buf, _, _) := copy_octets (Z.to_nat avail) (rand rng) s rand_ d in
      (octets1, remaining, first1, buf)
    else
      (* copy octets from split halves - until end of array *)
      let avail := u8 (count rng - first0) in
      let '(remaining, avail, first1) :=
        if octets <? avail
        then (u8 (avail + last0 - octets), octets, u8 (first0 + octets))
        else (last0, avail, 0) in
      let octets1 := u8 (octets - avail) in
      let '(buf, d, _) := copy_octets (Z.to_nat avail) (rand rng) s rand_ d in
      (* copy from beginning of array - until ring buffer last idx *)
      if negb (octets1 =? 0) && negb (last0 =? 0) then
        let s := 0 in
        let '(remaining, last1) :=
          if octets1 <? last0 then (u8 (last0 - octets1), octets1) else (0, last0) in
        let first2 := last1 in
        let octets2 := u8 (octets1 - last1) in
        let '(buf, _, _) := copy_octets (Z.to_nat last1) (rand rng) s buf d in
        (octets2, remaining, first2, buf)
      else (octets1, remaining, first1, buf) in
  PoolGetOut octets' (set_first rng first') buf
    (if remaining <? threshold rng then [NRF_RNG_TASK_START] else []).

(** [rng_pool_put] (lines 189-226), for a non-null [rng].  The result is the
    returned [int] and the pool afterwards. *)
Definition rng_pool_put (rng : rng_pool) (store : bool) (byte : Z)
  : Z * rng_pool :=
  let last0 := u8 (last rng + 1) in
  let last0 := if last0 =? count rng then 0 else last0 in
  if last0 =? first rng then
    (* this condition should not happen, but due to probable race, new value
       could be generated before NRF_RNG task is stopped. *)
    (- ENOBUFS, rng)
  else if negb store then (- EBUSY, rng)
  else
    let rng1 := set_rand rng (mem_store (rand rng) (last rng) byte) in
    let rng2 := set_last rng1 last0 in
    let last1 := u8 (last rng2 + 1) in
    let last1 := if last1 =? count rng2 then 0 else last1 in
    if last1 =? first rng2 then (0, rng2) else (- EBUSY, rng2).

(** The same with the pointer argument: [if (!rng) return -ENOBUFS;]. *)
Definition rng_pool_put_ptr (rng : option rng_pool) (store : bool) (byte : Z)
  : Z * option rng_pool :=
  match rng with
  | None => (- ENOBUFS, None)
  | Some r => let '(ret, r') := rng_pool_put r store byte in (ret, Some r')
  end.

(** [rng_pool_init] (lines 251-256).  The array is the storage that
    [RNG_POOL_DEFINE] reserves; [mem] is what it holds at that moment. *)
Definition rng_pool_init (mem : list Z) (len : Z) (threshold_ : Z) : rng_pool :=
  RngPool len threshold_ 0 0 mem.

(** ** Kernel semaphores

    Modelled from the spec: the kernel's counting semaphore, which is not
    among the sources.  Section 3 describes the two the driver owns, a
    mutual-exclusion gate and a producer/consumer wake signal, both with
    limit 1.  [k_sem_give] never exceeds the limit; [k_sem_try_take] is the
    part of [k_sem_take] that does not wait: it succeeds when a count is
    there. *)

Record k_sem := KSem { sem_count : Z; sem_limit : Z }.

Definition k_sem_init (initial limit : Z) : k_sem := KSem initial limit.

Definition k_sem_give (s : k_sem) : k_sem :=
  if sem_count s <? sem_limit s then KSem (sem_count s + 1) (sem_limit s) else s.

Definition k_sem_try_take (s : k_sem) : option k_sem :=
  if 0 <? sem_count s then Some (KSem (sem_count s - 1) (sem_limit s)) else None.

(** ** The RNG peripheral: the VALRDY event and the VALUE register

    Modelled from the spec: the accessors of [nrf_rng.h], which is not among
    the sources.  Section 4.2: a "value ready" flag and the generated byte
    register; reading the byte and clearing the flag are what
    [nrf_rng_random_value_get] and [nrf_rng_event_clear] do. *)

Record nrf_rng := NrfRng { EVENTS_VALRDY : bool; VALUE : Z }.

(** [random_byte_get] (lines 90-105); the interrupt lock around it has no
    effect on a sequential model. *)
Definition random_byte_get (h : nrf_rng) : Z * nrf_rng :=
  if EVENTS_VALRDY h
  then (u8 (VALUE h), NrfRng false (VALUE h))
  else (- EAGAIN, h).

(** ** struct entropy_nrf5_dev_data and the state the driver works on *)

Record entropy_nrf5_dev_data := DevData {
  sem_lock : k_sem;
  sem_sync : k_sem;
  isr_pool : rng_pool;      (* the [isr] member *)
  thr_pool : rng_pool       (* the [thr] member *)
}.

Record machine := Machine {
  dev : entropy_nrf5_dev_data;
  hw : nrf_rng;
  irq_enabled : bool        (* RNG_IRQn enabled in the NVIC *)
}.

Definition set_pools (dd : entropy_nrf5_dev_data) (i t : rng_pool)
  : entropy_nrf5_dev_data :=
  DevData (sem_lock dd) (sem_sync dd) i t.

Definition set_sem_sync (dd : entropy_nrf5_dev_data) (s : k_sem)
  : entropy_nrf5_dev_data :=
  DevData (sem_lock dd) s (isr_pool dd) (thr_pool dd).

Definition set_sem_lock (dd : entropy_nrf5_dev_data) (s : k_sem)
  : entropy_nrf5_dev_data :=
  DevData s (sem_sync dd) (isr_pool dd) (thr_pool dd).

(** What one run of the interrupt handler did, besides changing the state:
    the two [rng_pool_put] results (the second only if that call was made)
    and the events, in program order. *)
Record isr_out := IsrOut {
  isr_machine : machine;
  isr_sampled : bool;
  isr_ret_isr : option Z;
  isr_ret_thr : option Z;
  isr_events : list event
}.

(** [isr] (lines 228-249). *)
Definition isr (m : machine) : isr_out :=
  let dd := dev m in
  let '(byte, h) := random_byte_get (hw m) in
  if byte <? 0 then IsrOut (Machine dd h (irq_enabled m)) false None None []
  else
    let '(ret, pi) := rng_pool_put (isr_pool dd) true (u8 byte) in
    let '(ret', pt, sync, r_thr, ev1) :=
      if negb (ret =? - EBUSY) then
        let '(ret', pt) :=
          rng_pool_put (thr_pool dd) (ret =? - ENOBUFS) (u8 byte) in
        (ret', pt, k_sem_give (sem_sync dd), Some ret', [EvGive SEM_SYNC])
      else (ret, thr_pool dd, sem_sync dd, None, []) in
    let ev2 :=
      if negb (ret' =? - EBUSY) then [EvTask NRF_RNG_TASK_STOP] else [] in
    IsrOut (Machine (DevData (sem_lock dd) sync pi pt) h (irq_enabled m))
           true (Some ret) r_thr (ev1 ++ ev2).

(** ** The consumer API

    The hardware is represented by the bytes it is going to generate,
    [samples].  Each generated byte sets VALRDY; if RNG_IRQn is enabled the
    handler runs.  Interrupts are taken while the caller sleeps on
    [sem_sync]; a caller that would sleep when no sample is left does not
    return, which is the result [None].  There is one caller, so a taken
    [sem_lock] would never be given back: taking it when it has no count is
    [None] as well.  Loops that wait are bounded by [fuel]; running out of
    it is [None]. *)

Definition irq_fire (b : Z) (m : machine) : machine * list event :=
  let m1 := Machine (dev m) (NrfRng true b) (irq_enabled m) in
  if irq_enabled m then
    let o := isr m1 in (isr_machine o, isr_events o)
  else (m1, []).

(** [k_sem_take(&dev_data->sem_sync, K_FOREVER)] *)
Fixpoint k_sem_take_sync (samples : list Z) (m : machine)
  : option (machine * list Z * list event) :=
  match k_sem_try_take (sem_sync (dev m)) with
  | Some s' =>
      Some (Machine (set_sem_sync (dev m) s') (hw m) (irq_enabled m),
            samples, [EvTake SEM_SYNC])
  | None =>
      match samples with
      | [] => None
      | b :: rest =>
          let '(m1, ev) := irq_fire b m in
          match k_sem_take_sync rest m1 with
          | Some (m2, rest', ev') => Some (m2, rest', ev ++ ev')
          | None => None
          end
      end
  end.

Record entropy_out := EntropyOut {
  eo_ret : Z;
  eo_machine : machine;
  eo_buf : list Z;
  eo_samples : list Z;      (* the samples not yet generated *)
  eo_events : list event
}.

(** The inner loop [while (len8) { ... }] of [entropy_nrf5_get_entropy]
    (lines 272-281); [fuel] bounds the number of iterations. *)
Fixpoint get_entropy_chunk (fuel : nat) (samples : list Z) (m : machine)
    (len8 : Z) (buf : list Z) (evs : list event)
  : option (machine * list Z * list Z * list event) :=
  if len8 =? 0 then Some (m, buf, samples, evs)
  else
    match fuel with
    | O => None
    | S fuel' =>
        match k_sem_try_take (sem_lock (dev m)) with
        | None => None
        | Some lk =>
            let o := rng_pool_get (thr_pool (dev m)) len8 buf in
            let dd := set_pools (dev m) (isr_pool (dev m)) (get_rng o) in
            let dd := set_sem_lock dd (k_sem_give lk) in
            let m1 := Machine dd (hw m) (irq_enabled m) in
            let evs1 := evs ++ [EvTake SEM_LOCK] ++ map EvTask (get_tasks o)
                            ++ [EvGive SEM_LOCK] in
            let len8' := get_ret o in
            if negb (len8' =? 0) then
              (* Sleep until next interrupt *)
              match k_sem_take_sync samples m1 with
              | None => None
              | Some (m2, samples', ev2) =>
                  get_entropy_chunk fuel' samples' m2 len8' (get_buf o)
                    (evs1 ++ ev2)
              end
            else get_entropy_chunk fuel' samples m1 len8' (get_buf o) evs1
        end
    end.

(** The outer loop [while (len) { ... }] (lines 262-282). *)
Fixpoint get_entropy_loop (fuel ifuel : nat) (samples : list Z) (m : machine)
    (len : Z) (buf : list Z) (evs : list event) : option entropy_out :=
  if len =? 0 then Some (EntropyOut 0 m buf samples evs)
  else
    match fuel with
    | O => None
    | S fuel' =>
        let len8 := if UINT8_MAX <? len then UINT8_MAX else u8 len in
        let len' := u16 (len - len8) in
        match get_entropy_chunk ifuel samples m len8 buf evs with
        | None => None
        | Some (m', buf', samples', evs') =>
            get_entropy_loop fuel' ifuel samples' m' len' buf' evs'
        end
    end.

(** [entropy_nrf5_get_entropy] (lines 258-285). *)
Definition entropy_nrf5_get_entropy (fuel : nat) (samples : list Z)
    (m : machine) (buf : list Z) (len : Z) : option entropy_out :=
  get_entropy_loop fuel fuel samples m len buf [].

(** The [do { ... } while (len);] loop of the busy-wait path (lines 309-326).
    With RNG_IRQn disabled the samples are read directly. *)
Fixpoint busywait_loop (fuel : nat) (samples : list Z) (h : nrf_rng)
    (buf : list Z) (len : Z) : option (nrf_rng * list Z * list Z) :=
  match fuel with
  | O => None
  | S fuel' =>
      let ready :=
        if EVENTS_VALRDY h then Some (h, samples)
        else match samples with
             | [] => None
             | b :: rest => Some (NrfRng true b, rest)
             end in
      match ready with
      | None => None
      | Some (h1, samples1) =>
          let '(byte, h2) := random_byte_get h1 in
          let '(buf', len') :=
            if byte <? 0 then (buf, len)
            else let len' := u16 (len - 1) in (mem_store buf len' (u8 byte), len') in
          if negb (len' =? 0) then busywait_loop fuel' samples1 h2 buf' len'
          else Some (h2, buf', samples1)
      end
  end.

(** [entropy_nrf5_get_entropy_isr] (lines 287-334). *)
Definition entropy_nrf5_get_entropy_isr (fuel : nat) (samples : list Z)
    (m : machine) (buf : list Z) (len : Z) (flags : Z) : option entropy_out :=
  let cnt := len in
  if Z.land flags ENTROPY_BUSYWAIT =? 0 then
    let o := rng_pool_get (isr_pool (dev m)) (u8 len) buf in
    Some (EntropyOut (get_ret o)
            (Machine (set_pools (dev m) (get_rng o) (thr_pool (dev m)))
                     (hw m) (irq_enabled m))
            (get_buf o) samples (map EvTask (get_tasks o)))
  else if negb (len =? 0) then
    let irq_was_enabled := irq_enabled m in
    let h := NrfRng false (VALUE (hw m)) in
    match busywait_loop fuel samples h buf len with
    | None => None
    | Some (h', buf', samples') =>
        Some (EntropyOut cnt
                (Machine (dev m) h' irq_was_enabled)
                buf' samples' [EvTask NRF_RNG_TASK_START])
    end
  else Some (EntropyOut cnt m buf samples []).

(** [entropy_nrf_get_entropy_isr] (lines 381-385). *)
Definition entropy_nrf_get_entropy_isr (m : machine) (buf : list Z) (len : Z)
  : pool_get_out :=
  rng_pool_get (isr_pool (dev m)) len buf.

(** ** What [rng_pool_put] reports

    The three values [rng_pool_put] returns, read the way the handler reads
    them: [-EBUSY] says the tier still has room after the call, anything else
    ([0]: stored and now full, [-ENOBUFS]: already full, byte dropped) says
    it is full. *)

Inductive put_status := Stored | Full.

Definition status_of (ret : Z) : put_status :=
  if ret =? - EBUSY then Stored else Full.

(** The index [rng_pool_put] computes as the prospective new tail. *)
Definition next_index (rng : rng_pool) : Z :=
  let l := u8 (last rng + 1) in if l =? count rng then 0 else l.

Definition pool_full (rng : rng_pool) : Prop := next_index rng = first rng.

Definition pool_empty (rng : rng_pool) : Prop := first rng = last rng.

(** ** Well-formed pools and the bytes they hold *)

Definition pool_wf (rng : rng_pool) : Prop :=
  0 ≤ first rng < count rng ∧ 0 ≤ last rng < count rng ∧
  count rng ≤ 255 ∧ Z.of_nat (length (rand rng)) = count rng.

(** The unread bytes, oldest first: the slots from [first] up to [last],
    going round the end of the array when [last] is behind [first]. *)
Definition contents (rng : rng_pool) : list Z :=
  if first rng <=? last rng then
    take (Z.to_nat (last rng - first rng)) (drop (Z.to_nat (first rng)) (rand rng))
  else
    drop (Z.to_nat (first rng)) (take (Z.to_nat (count rng)) (rand rng))
      ++ take (Z.to_nat (last rng)) (rand rng).

(** ** Sequences of operations on one pool

    [track_op] runs one operation and keeps books from what the code itself
    reports: [t_pending] counts the bytes a [put] stored minus the bytes a
    [get] handed out, [t_starts] the START tasks triggered, and
    [t_crossings] the [get]s that took the pending count from at or above
    the threshold to below it. *)

Inductive pool_op :=
| OpPut (store : bool) (byte : Z)
| OpGet (octets : Z).

Record tracked := Tracked {
  t_rng : rng_pool;
  t_pending : Z;
  t_starts : nat;
  t_crossings : nat
}.

Definition track_op (t : tracked) (op : pool_op) : tracked :=
  match op with
  | OpPut st b =>
      let '(ret, rng') := rng_pool_put (t_rng t) st b in
      let stored := st && negb (ret =? - ENOBUFS) in
      Tracked rng' (if stored then t_pending t + 1 else t_pending t)
              (t_starts t) (t_crossings t)
  | OpGet n =>
      let o := rng_pool_get (t_rng t) (u8 n) (replicate (Z.to_nat (u8 n)) 0) in
      let p' := t_pending t - (u8 n - get_ret o) in
      let crossed :=
        (threshold (t_rng t) <=? t_pending t) && (p' <? threshold (t_rng t)) in
      Tracked (get_rng o) p'
              (t_starts t + length (filter (λ x, is_start x = true) (get_tasks o)))%nat
              (if crossed then S (t_crossings t) else t_crossings t)
  end.

Definition track_ops (ops : list pool_op) (t : tracked) : tracked :=
  fold_left track_op ops t.

Definition fresh (mem : list Z) (len threshold_ : Z) : tracked :=
  Tracked (rng_pool_init mem len threshold_) 0 0 0.

(** [put] of each byte of [bs] in turn, with [store = true]. *)
Definition pool_puts (bs : list Z) (rng : rng_pool) : rng_pool :=
  fold_left (λ r b, (rng_pool_put r true b).2) bs rng.

(** The statuses of a series of [put]s, and the pool after them. *)
Fixpoint pool_put_rets (ps : list (bool * Z)) (rng : rng_pool)
  : list Z * rng_pool :=
  match ps with
  | [] => ([], rng)
  | (st, b) :: ps' =>
      let '(ret, rng1) := rng_pool_put rng st b in
      let '(rets, rng2) := pool_put_rets ps' rng1 in
      (ret :: rets, rng2)
  end.

(** ** The specification's reading of a pool

    A queue of at most [cap - 1] bytes: a storing [put] appends unless the
    queue is at its maximum, a [get] of [n] removes the [n] oldest. *)
Fixpoint spec_fifo (cap : Z) (q : list Z) (ops : list pool_op) : list Z :=
  match ops with
  | [] => q
  | OpPut st b :: ops' =>
      spec_fifo cap
        (if st && (Z.of_nat (length q) <? cap - 1) then q ++ [b] else q) ops'
  | OpGet n :: ops' => spec_fifo cap (drop (Z.to_nat (u8 n)) q) ops'
  end.

(** The specification's sentences that the code does not satisfy, stated as
    they are written so that they can be tested on an input. *)

(** "[get] returns bytes in the exact order [put] inserted them", read on the
    destination buffer: after the [put]s of [bs], a [get] of [n] leaves the
    [n] oldest bytes in buffer positions [0..n-1] in insertion order. *)
Definition spec_get_in_put_order (mem : list Z) (len thr : Z) (bs : list Z)
    (n : Z) : Prop :=
  get_buf (rng_pool_get (pool_puts bs (rng_pool_init mem len thr)) n
             (replicate (Z.to_nat n) 0))
  = take (Z.to_nat n) bs.

(** "start is invoked exactly once for each downward crossing". *)
Definition spec_one_start_per_crossing (mem : list Z) (len thr : Z)
    (ops : list pool_op) : Prop :=
  let t := track_ops ops (fresh mem len thr) in
  t_starts t = t_crossings t.

(** Section 4.4, steps 3 and 4 of the handler's protocol: the thread tier is
    written only if the ISR tier reported [Stored]; an ISR tier reporting
    [Full] leaves the thread tier alone and gives no wake; the wake is given
    exactly when the thread-tier [put] reports [Stored]. *)
Definition spec_isr_protocol (m : machine) : Prop :=
  let o := isr m in
  isr_sampled o = true →
  (thr_pool (dev (isr_machine o)) ≠ thr_pool (dev m) →
     status_of <$> isr_ret_isr o = Some Stored) ∧
  (status_of <$> isr_ret_isr o = Some Full →
     thr_pool (dev (isr_machine o)) = thr_pool (dev m) ∧
     filter (λ e, is_wake e = true) (isr_events o) = []) ∧
  (filter (λ e, is_wake e = true) (isr_events o) ≠ [] ↔
     status_of <$> isr_ret_thr o = Some Stored).

(** "returns the number of bytes delivered": the number of bytes the call
    took out of the ISR-tier pool, counted on [contents]. *)
Definition bytes_delivered (m : machine) (o : entropy_out) : Z :=
  Z.of_nat (length (contents (isr_pool (dev m))))
  - Z.of_nat (length (contents (isr_pool (dev (eo_machine o))))).

(** The books of [track_op] agree with the pool: it is well formed and the
    pending count is the number of bytes it holds. *)
Definition tracked_ok (t : tracked) : Prop :=
  pool_wf (t_rng t) ∧ t_pending t = Z.of_nat (length (contents (t_rng t))).

(** ** Concrete scenarios

    The scenario of the specification's section 8: a pool of capacity 8
    (7 usable) with threshold 2, into which the bytes [0x11 .. 0x17] are
    inserted one at a time. *)

Definition scenario_mem : list Z := replicate 8 0.

Definition scenario_bytes : list Z := [17; 18; 19; 20; 21; 22; 23].

Definition scenario_pool : rng_pool :=
  pool_puts scenario_bytes (rng_pool_init scenario_mem 8 2).

(** Three bytes in, two out, one out: the second [get] starts below the
    threshold and stays below it. *)
Definition two_gets_below : list pool_op :=
  [OpPut true 1; OpPut true 2; OpPut true 3; OpGet 2; OpGet 1].

(** A device whose ISR-tier pool (capacity 2) is full and whose thread-tier
    pool (capacity 4) is empty, at the moment the peripheral has the byte
    [0x42] ready. *)
Definition isr_tier_full : machine :=
  Machine
    (DevData (k_sem_init 1 1) (k_sem_init 0 1)
       (pool_puts [1] (rng_pool_init [0; 0] 2 1))
       (rng_pool_init [0; 0; 0; 0] 4 1))
    (NrfRng true 66) true.

(** Both tiers (capacity 2 each) full, and a byte ready. *)
Definition both_tiers_full : machine :=
  Machine
    (DevData (k_sem_init 1 1) (k_sem_init 0 1)
       (pool_puts [1] (rng_pool_init [0; 0] 2 1))
       (pool_puts [2] (rng_pool_init [0; 0] 2 1)))
    (NrfRng true 66) true.

(** A device whose ISR-tier pool (capacity 8) holds the three bytes
    [1, 2, 3]; nothing is ready in the peripheral. *)
Definition isr_tier_three : machine :=
  Machine
    (DevData (k_sem_init 1 1) (k_sem_init 0 1)
       (pool_puts [1; 2; 3] (rng_pool_init scenario_mem 8 2))
       (rng_pool_init scenario_mem 8 2))
    (NrfRng false 0) true.

(** A blocking request for 256 bytes.  The ISR tier (capacity 2) is full,
    so every byte the handler samples goes to the thread tier (capacity 8);
    the hardware generates [1, 2, .., 255] and then [77, 78, 79]; the
    caller's buffer of 256 bytes is zero before the call. *)
Definition blocking_256_machine : machine :=
  Machine
    (DevData (k_sem_init 1 1) (k_sem_init 0 1)
       (pool_puts [1] (rng_pool_init [0; 0] 2 1))
       (rng_pool_init scenario_mem 8 2))
    (NrfRng false 0) true.

Definition blocking_256_samples : list Z := seqZ 1 255 ++ [77; 78; 79].

(** ** Device initialisation

    The build-time configuration the driver reads through [CONFIG_...]
    macros; the macros are not in the driver's source, so the values are
    parameters. *)

Record nrf5_config := Nrf5Config {
  CONFIG_ENTROPY_NRF5_ISR_BUF_LEN : Z;
  CONFIG_ENTROPY_NRF5_THR_BUF_LEN : Z;
  CONFIG_ENTROPY_NRF5_ISR_THRESHOLD : Z;
  CONFIG_ENTROPY_NRF5_THR_THRESHOLD : Z;
  CONFIG_ENTROPY_NRF5_BIAS_CORRECTION : bool
}.

Definition RNG_POOL_ISR_LEN (cfg : nrf5_config) : Z :=
  CONFIG_ENTROPY_NRF5_ISR_BUF_LEN cfg + 1.

Definition RNG_POOL_THR_LEN (cfg : nrf5_config) : Z :=
  CONFIG_ENTROPY_NRF5_THR_BUF_LEN cfg + 1.

Record init_out := InitOut {
  init_ret : Z;
  init_machine : machine;
  init_bias_correction : bool;    (* error correction enabled *)
  init_int_valrdy : bool;         (* VALRDY interrupt enabled *)
  init_events : list event
}.

(** [entropy_nrf5_init] (lines 349-379).  [isr_mem] and [thr_mem] are the
    arrays [RNG_POOL_DEFINE] reserves inside the device data, with what they
    hold at boot; [h] is the peripheral before the call.  The lengths and
    thresholds are narrowed to [u8_t] by the call of [rng_pool_init]. *)
Definition entropy_nrf5_init (cfg : nrf5_config) (isr_mem thr_mem : list Z)
    (h : nrf_rng) : init_out :=
  let lock := k_sem_init 1 1 in
  let sync := k_sem_init 0 1 in
  let thr := rng_pool_init thr_mem (u8 (RNG_POOL_THR_LEN cfg))
               (u8 (CONFIG_ENTROPY_NRF5_THR_THRESHOLD cfg)) in
  let isr_ := rng_pool_init isr_mem (u8 (RNG_POOL_ISR_LEN cfg))
               (u8 (CONFIG_ENTROPY_NRF5_ISR_THRESHOLD cfg)) in
  InitOut 0
    (Machine (DevData lock sync isr_ thr) (NrfRng false (VALUE h)) true)
    (CONFIG_ENTROPY_NRF5_BIAS_CORRECTION cfg)
    true
    [EvTask NRF_RNG_TASK_START].

(** The handler run once for each byte the hardware generates, in order. *)
Fixpoint irq_run (bs : list Z) (m : machine) : machine * list event :=
  match bs with
  | [] => (m, [])
  | b :: bs' =>
      let '(m1, ev) := irq_fire b m in
      let '(m2, ev') := irq_run bs' m1 in
      (m2, ev ++ ev')
  end.

(** A configuration with room for 3 bytes in the ISR tier and 4 in the
    thread tier, and the arrays that go with it. *)
Definition small_config : nrf5_config := Nrf5Config 3 4 1 2 true.

Definition small_boot : machine :=
  init_machine (entropy_nrf5_init small_config (replicate 4 0) (replicate 5 0)
                  (NrfRng false 0)).

(** ** Semaphore traces

    The events of a run that are operations on the two semaphores, and what
    the blocking call adds to them: a read of the thread tier under the
    gate, and a wake-up, in which the handler gives the wake, the caller
    takes it and reads again. *)
Definition is_sem_op (e : event) : bool :=
  match e with EvTask _ => false | _ => true end.

Definition sem_ops (evs : list event) : list event :=
  filter (λ e, is_sem_op e = true) evs.

Definition read_under_gate : list event := [EvTake SEM_LOCK; EvGive SEM_LOCK].

Definition wake_up : list event :=
  [EvGive SEM_SYNC; EvTake SEM_SYNC] ++ read_under_gate.

(** ** The Bluetooth shell's address parser

    [subsys/net/ip/l2/bluetooth_shell.c].  A C string is the list of its
    character codes, without the terminating NUL. *)

(** Modelled from the spec: [EINVAL] of [errno.h] (the specification's
    [InvalidArgument]) and the two address types of [bluetooth/hci.h];
    neither header is among the sources. *)
Definition EINVAL : Z := 22.
Definition BT_ADDR_LE_PUBLIC : Z := 0.
Definition BT_ADDR_LE_RANDOM : Z := 1.

(** Modelled from the spec: [bt_addr_le_t] of [bluetooth/hci.h], which is
    not among the sources: the byte [type], followed by [a], whose only
    member is the array [val] of six bytes.  The source reaches them as
    [addr->type] and [addr->a.val[i]]. *)
Record bt_addr_le := BtAddrLe { addr_type : Z; addr_val : list Z }.

(** [addr->a.val[i]], read and written.  The source does not check the
    index.  The byte in front of [a.val] is the [type] member, so that is
    what [a.val[-1]] names; an index below -1 or above 5 is outside [*addr],
    the behaviour of the program is then undefined, and the result is
    [None]. *)
Definition a_val_get (addr : bt_addr_le) (i : Z) : option Z :=
  if (i <? -1) || (5 <? i) then None
  else if i =? -1 then Some (addr_type addr)
  else Some (mem_load (addr_val addr) i).

Definition a_val_set (addr : bt_addr_le) (i : Z) (v : Z) : option bt_addr_le :=
  if (i <? -1) || (5 <? i) then None
  else if i =? -1 then Some (BtAddrLe v (addr_val addr))
  else Some (BtAddrLe (addr_type addr) (mem_store (addr_val addr) i v)).

(** The string literals of [str2bt_addr_le]. *)
Definition str_public : list Z := [112; 117; 98; 108; 105; 99].
Definition str_public_paren : list Z := [40] ++ str_public ++ [41].
Definition str_random : list Z := [114; 97; 110; 100; 111; 109].
Definition str_random_paren : list Z := [40] ++ str_random ++ [41].

(** [char2hex] (lines 36-49): the result is the returned [int] and [*x];
    the characters are ['0'] 48, ['9'] 57, ['a'] 97, ['f'] 102, ['A'] 65,
    ['F'] 70. *)
Definition char2hex (c : Z) (x : Z) : Z * Z :=
  if (48 <=? c) && (c <=? 57) then (0, u8 (c - 48))
  else if (97 <=? c) && (c <=? 102) then (0, u8 (c - 97 + 10))
  else if (65 <=? c) && (c <=? 70) then (0, u8 (c - 65 + 10))
  else (- EINVAL, x).

(** The [for] loop of [str2bt_addr_le] (lines 60-75); [':'] is 58.  The
    result is 0 when the loop ran to the end of the string and [-EINVAL]
    when it returned from inside, with [*addr] as it is at that point.
    Every colon lowers the index [i], at whatever position it stands: six
    colons in front of a digit bring it to -1, seven outside [*addr]. *)
Fixpoint str2bt_addr_loop (str : list Z) (i j : Z) (tmp : Z)
    (addr : bt_addr_le) : option (Z * bt_addr_le) :=
  match str with
  | [] => Some (0, addr)
  | c :: rest =>
      if (Z.rem j 3 =? 0) && negb (c =? 58) then Some (- EINVAL, addr)
      else if c =? 58 then str2bt_addr_loop rest (i - 1) (j + 1) tmp addr
      else
        v ← a_val_get addr i;
        addr1 ← a_val_set addr i (u8 (Z.shiftl v 4));
        let '(r, tmp') := char2hex c tmp in
        if r <? 0 then Some (- EINVAL, addr1)
        else
          v1 ← a_val_get addr1 i;
          addr2 ← a_val_set addr1 i (Z.lor v1 tmp');
          str2bt_addr_loop rest i (j + 1) tmp' addr2
  end.

(** [str2bt_addr_le] (lines 51-86).  [tmp] is not initialised in the source
    and is read only after [char2hex] has set it; it starts as 0 here.  The
    result is [None] when the loop left [*addr]. *)
Definition str2bt_addr_le (str type : list Z) (addr : bt_addr_le)
  : option (Z * bt_addr_le) :=
  if negb (Z.of_nat (length str) =? 17) then Some (- EINVAL, addr)
  else
    '(r, addr1) ← str2bt_addr_loop str 5 1 0 addr;
    if negb (r =? 0) then Some (- EINVAL, addr1)
    else if bool_decide (type = str_public)
            || bool_decide (type = str_public_paren)
         then Some (0, BtAddrLe BT_ADDR_LE_PUBLIC (addr_val addr1))
    else if bool_decide (type = str_random)
            || bool_decide (type = str_random_paren)
         then Some (0, BtAddrLe BT_ADDR_LE_RANDOM (addr_val addr1))
    else Some (- EINVAL, addr1).

(** The text of an address: two hexadecimal digits per byte, the bytes
    separated by colons.  [hex_digit upper v] is the digit of value [v]. *)
Definition hex_digit (upper : bool) (v : Z) : Z :=
  if v <? 10 then 48 + v else if upper then 65 + (v - 10) else 97 + (v - 10).

Fixpoint addr_text (upper : bool) (bs : list Z) : list Z :=
  match bs with
  | [] => []
  | [b] => [hex_digit upper (b / 16); hex_digit upper (b mod 16)]
  | b :: bs' =>
      [hex_digit upper (b / 16); hex_digit upper (b mod 16); 58]
        ++ addr_text upper bs'
  end.

(** The characters [char2hex] takes for hexadecimal digits: ['0'..'9'],
    ['a'..'f'] and ['A'..'F']. *)
Definition hex_char (c : Z) : Prop :=
  48 ≤ c ≤ 57 ∨ 97 ≤ c ≤ 102 ∨ 65 ≤ c ≤ 70.

(** The number of colons among the first [k] characters of [str]: the loop
    reaches the character at offset [k] with [i = 5 - colons_before str k]. *)
Definition colons_before (str : list Z) (k : nat) : Z :=
  Z.of_nat (length (filter (λ c, c = 58) (take k str))).

(** The shell commands (lines 88-127).  [net_mgmt] and [printk] are the
    commands' effects: a command returns its [int] and the list of what it
    requested and printed, in order.  [net_mgmt] belongs to the network
    stack; its answer is given by the argument [net_mgmt] of the commands.
    The interface [net_if_get_default ()] and the size of the request's data
    are left out. *)
Inductive net_request :=
  | NET_REQUEST_BT_CONNECT (addr : bt_addr_le)
  | NET_REQUEST_BT_SCAN (arg : list Z).

Inductive shell_msg :=
  | MsgInvalidPeer (err : Z)
  | MsgConnFailed
  | MsgConnPending
  | MsgScanFailed
  | MsgScanInProgress.

Inductive shell_event :=
  | EvNetMgmt (req : net_request)
  | EvPrintk (msg : shell_msg).

(** [shell_cmd_connect] (lines 88-110).  [argc] is the length of [argv];
    [addr] is the local variable's contents on entry, which the source does
    not initialise.  The result is [None] when [str2bt_addr_le] left the
    variable [addr]. *)
Definition shell_cmd_connect (net_mgmt : net_request → Z)
    (argv : list (list Z)) (addr : bt_addr_le)
  : option (Z * list shell_event) :=
  if Z.of_nat (length argv) <? 3 then Some (- EINVAL, [])
  else
    '(err, addr1) ← str2bt_addr_le (argv !!! 1%nat) (argv !!! 2%nat) addr;
    if negb (err =? 0) then Some (0, [EvPrintk (MsgInvalidPeer err)])
    else
      let req := NET_REQUEST_BT_CONNECT addr1 in
      if negb (net_mgmt req =? 0)
      then Some (0, [EvNetMgmt req; EvPrintk MsgConnFailed])
      else Some (0, [EvNetMgmt req; EvPrintk MsgConnPending]).

(** [shell_cmd_scan] (lines 112-127). *)
Definition shell_cmd_scan (net_mgmt : net_request → Z)
    (argv : list (list Z)) : Z * list shell_event :=
  if Z.of_nat (length argv) <? 2 then (- EINVAL, [])
  else
    let req := NET_REQUEST_BT_SCAN (argv !!! 1%nat) in
    if negb (net_mgmt req =? 0)
    then (0, [EvNetMgmt req; EvPrintk MsgScanFailed])
    else (0, [EvNetMgmt req; EvPrintk MsgScanInProgress]).

(** ** Proof automation

    [solve_list_arith] closes equations between list expressions that differ
    only in the arithmetic of their indices. *)

Ltac same_test :=
  match goal with
  | |- (if ?a <? ?t then _ else _) = (if ?b <? ?t then _ else _) =>
      replace b with a by lia; reflexivity
  end.

Ltac solve_list_arith :=
  try same_test;
  repeat first [ lia | done | apply take_ge; lia | progress f_equal ].

(** [split_get_branches f g] walks through the branches of [rng_pool_get],
    recording for every copy loop what the lemmas [f] and [g] say of it. *)
Ltac split_get_branches f g :=
  repeat match goal with
  | |- context [copy_octets ?k ?src ?s ?dst ?d] =>
      let Hb := fresh "Hb" in let Hd := fresh "Hd" in
      pose proof (f k src s dst d) as Hb;
      pose proof (g k src s dst d) as Hd;
      destruct (copy_octets k src s dst d) as [[? ?] ?];
      cbn [fst snd] in Hb, Hd
  | |- context [if ?c then _ else _] => destruct c
  end.

(** * Properties *)

(** ** Machine integers, loads and stores *)

Lemma u8_small z : 0 ≤ z < 256 → u8 z = z.
Proof. intros H. unfold u8. by apply Z.mod_small. Qed.

Lemma u8_range z : 0 ≤ u8 z ≤ 255.
Proof. unfold u8. pose proof (Z.mod_pos_bound z 256). lia. Qed.

Lemma load_nat mem (i : nat) x : mem !! i = Some x → mem_load mem (Z.of_nat i) = x.
Proof.
  intros H. unfold mem_load. rewrite bool_decide_true by lia.
  by rewrite Nat2Z.id, H.
Qed.

Lemma store_nat mem (i : nat) v : mem_store mem (Z.of_nat i) v = <[i := v]> mem.
Proof. unfold mem_store. rewrite bool_decide_true by lia. by rewrite Nat2Z.id. Qed.

Lemma length_store mem i v : length (mem_store mem i v) = length mem.
Proof. unfold mem_store. case_bool_decide; [apply length_insert | done]. Qed.

(** ** The copy loop *)

Lemma copy_octets_nat n : ∀ src (s d : nat) dst,
  (s + n ≤ length src)%nat → (n ≤ d ≤ length dst)%nat →
  copy_octets n src (Z.of_nat s) dst (Z.of_nat d)
  = (take (d - n) dst ++ reverse (take n (drop s src)) ++ drop d dst,
     Z.of_nat (d - n), Z.of_nat (s + n)).
Proof.
  induction n as [|n IH]; intros src s d dst Hs Hd.
  - simpl. rewrite Nat.sub_0_r, Nat.add_0_r, take_drop. done.
  - destruct (lookup_lt_is_Some_2 src s) as [x Hx]; [lia|].
    destruct (lookup_lt_is_Some_2 dst (d - 1)) as [y Hy]; [lia|].
    cbn [copy_octets].
    replace (Z.of_nat d - 1) with (Z.of_nat (d - 1)) by lia.
    replace (Z.of_nat s + 1) with (Z.of_nat (S s)) by lia.
    rewrite (load_nat _ _ _ Hx), store_nat.
    rewrite IH by (rewrite ?length_insert; lia).
    rewrite take_insert_ge by lia.
    rewrite drop_insert_ge by lia.
    rewrite Nat.sub_diag.
    rewrite (drop_S dst y (d - 1)) by done.
    rewrite (drop_S src x s) by done.
    cbn [take insert list_insert]. rewrite reverse_cons.
    replace (S (d - 1)) with d by lia.
    replace (d - 1 - n)%nat with (d - S n)%nat by lia.
    replace (S s + n)%nat with (s + S n)%nat by lia.
    rewrite <- !app_assoc. done.
Qed.

Lemma copy_octets_Z n src s dst d :
  0 ≤ s → 0 ≤ n → s + n ≤ Z.of_nat (length src) →
  n ≤ d ≤ Z.of_nat (length dst) →
  copy_octets (Z.to_nat n) src s dst d
  = (take (Z.to_nat (d - n)) dst
       ++ reverse (take (Z.to_nat n) (drop (Z.to_nat s) src))
       ++ drop (Z.to_nat d) dst,
     d - n, s + n).
Proof.
  intros Hs Hn Hsrc Hd.
  rewrite <- (Z2Nat.id s) at 1 by lia. rewrite <- (Z2Nat.id d) at 1 by lia.
  rewrite copy_octets_nat by lia.
  repeat f_equal; lia.
Qed.

(** The loop only writes below [d] and keeps the length. *)
Lemma copy_octets_length n : ∀ src s dst d,
  length (copy_octets n src s dst d).1.1 = length dst.
Proof.
  induction n as [|n IH]; intros; simpl; [done|].
  by rewrite IH, length_store.
Qed.

Lemma copy_octets_above n : ∀ src s dst d (i : nat),
  d ≤ Z.of_nat i → (copy_octets n src s dst d).1.1 !! i = dst !! i.
Proof.
  induction n as [|n IH]; intros src s dst d i Hi; simpl; [done|].
  rewrite IH by lia. unfold mem_store. case_bool_decide; [|done].
  apply list_lookup_insert_ne. lia.
Qed.

Lemma copy_octets_ptr n : ∀ src s dst d,
  (copy_octets n src s dst d).1.2 = d - Z.of_nat n.
Proof.
  induction n as [|n IH]; intros; cbn [copy_octets]; [simpl; lia|].
  rewrite IH. lia.
Qed.

(** ** Well-formed pools *)

Lemma length_contents rng :
  pool_wf rng →
  Z.of_nat (length (contents rng)) = (last rng - first rng) mod count rng.
Proof.
  intros (Hf & Hl & Hc & Hlen). unfold contents.
  destruct (Z.leb_spec (first rng) (last rng)).
  - rewrite length_take, length_drop, Z.mod_small by lia. lia.
  - rewrite length_app, length_drop, !length_take.
    replace (last rng - first rng) with (count rng - first rng + last rng + -1 * count rng) by lia.
    rewrite Z.mod_add, Z.mod_small by lia. lia.
Qed.

Lemma drop_take_drop (r : list Z) (f a n : nat) :
  (n ≤ a)%nat → drop n (take a (drop f r)) = take (a - n) (drop (f + n) r).
Proof.
  intros H. replace a with (n + (a - n))%nat at 1 by lia.
  by rewrite <- take_drop_commute, drop_drop.
Qed.

Lemma mod_wrap x c : c ≤ x < 2 * c → x mod c = x - c.
Proof.
  intros H. replace x with (x - c + 1 * c) at 1 by lia.
  rewrite Z.mod_add, Z.mod_small; lia.
Qed.

Lemma rng_pool_get_spec rng n buf :
  pool_wf rng → 0 ≤ n ≤ 255 → n ≤ Z.of_nat (length buf) →
  let q := contents rng in
  let k := Z.min n (Z.of_nat (length q)) in
  let o := rng_pool_get rng n buf in
  get_ret o = n - k ∧
  get_buf o = take (Z.to_nat (n - k)) buf ++ reverse (take (Z.to_nat k) q)
                ++ drop (Z.to_nat n) buf ∧
  get_tasks o = (if Z.of_nat (length q) - k <? threshold rng
                 then [NRF_RNG_TASK_START] else []) ∧
  get_rng o = set_first rng ((first rng + k) mod count rng) ∧
  contents (get_rng o) = drop (Z.to_nat k) q.
Proof.
  intros Hwf Hn Hbuf q k o.
  pose proof (length_contents rng Hwf) as Hq. fold q in Hq.
  destruct Hwf as (Hf & Hl & Hc & Hlen).
  destruct rng as [c t f l r]; cbn [count threshold first last rand] in *.
  subst o k. revert Hq. subst q.
  unfold rng_pool_get, contents, set_first;
    cbn [count threshold first last rand get_ret get_buf get_tasks get_rng].
  destruct (Z.leb_spec f l) as [Hfl|Hfl]; intros Hq; rewrite Hq.
  - (* contiguous *)
    rewrite (Z.mod_small (l - f)) by lia.
    rewrite (u8_small (l - f)) by lia.
    destruct (Z.ltb_spec n (l - f)) as [Hlt|Hge].
    + rewrite Z.min_l by lia.
      rewrite (u8_small (l - f - n)), (u8_small (f + n)), Z.sub_diag by lia.
      change (u8 0) with 0.
      rewrite copy_octets_Z by lia. cbn.
      rewrite (Z.mod_small (f + n)) by lia.
      destruct (Z.leb_spec (f + n) l); [|lia].
      rewrite take_take, Nat.min_l by lia.
      rewrite drop_take_drop by lia.
      repeat split; solve_list_arith.
    + rewrite Z.min_r by lia.
      rewrite (u8_small (n - (l - f))) by lia.
      rewrite (u8_small (f + (l - f))) by lia.
      rewrite copy_octets_Z by lia. cbn.
      replace (f + (l - f)) with l by lia.
      rewrite (Z.mod_small l) by lia.
      rewrite Z.leb_refl, Z.sub_diag.
      rewrite take_take, Nat.min_id.
      repeat split; solve_list_arith.
      rewrite Z.sub_diag, (drop_ge (take _ _)) by (rewrite length_take; lia).
      done.
  - (* split halves *)
    replace ((l - f) mod c) with (c - f + l)
      by (replace (l - f) with (c - f + l + -1 * c) by lia;
          rewrite Z.mod_add, Z.mod_small by lia; lia).
    rewrite (u8_small (c - f)) by lia.
    rewrite (take_ge r (Z.to_nat c)) by lia.
    destruct (Z.ltb_spec n (c - f)) as [Hlt|Hge].
    + rewrite Z.min_l by lia.
      rewrite (u8_small (c - f + l - n)), (u8_small (f + n)), Z.sub_diag by lia.
      change (u8 0) with 0.
      rewrite copy_octets_Z by lia. cbn.
      rewrite (Z.mod_small (f + n)) by lia.
      destruct (Z.leb_spec (f + n) l); [lia|].
      rewrite take_app_le by (rewrite length_drop; lia).
      rewrite drop_app_le by (rewrite length_drop; lia).
      rewrite drop_drop.
      repeat split; solve_list_arith.
    + rewrite (u8_small (n - (c - f))) by lia.
      rewrite copy_octets_Z by lia. cbn [fst snd].
      rewrite (take_ge (drop _ r)) by (rewrite length_drop; lia).
      destruct (Z.eqb_spec (n - (c - f)) 0) as [Hz|Hnz];
        [|destruct (Z.eqb_spec l 0) as [Hl0|Hl0]]; cbn [negb andb].
      * (* the request ends exactly at the end of the array *)
        assert (n = c - f) as -> by lia.
        cbn [get_ret get_rng get_buf get_tasks first last rand count].
        rewrite Z.min_l by lia.
        replace (f + (c - f)) with c by lia. rewrite Z_mod_same_full.
        rewrite take_app_length' by (rewrite length_drop; lia).
        rewrite drop_app_length' by (rewrite length_drop; lia).
        change (0 <=? l) with (0 <=? l). destruct (Z.leb_spec 0 l); [|lia].
        repeat split; solve_list_arith.
      * (* nothing at the beginning of the array *)
        subst l.
        cbn [get_ret get_rng get_buf get_tasks first last rand count].
        rewrite Z.add_0_r in *. rewrite Z.min_r by lia.
        replace (f + (c - f)) with c by lia. rewrite Z_mod_same_full.
        rewrite take_0, app_nil_r.
        rewrite (take_ge (drop _ r)) by (rewrite length_drop; lia).
        rewrite (drop_ge (drop _ r)) by (rewrite length_drop; lia).
        repeat split; solve_list_arith.
      * (* second segment, from the beginning of the array *)
        destruct (Z.ltb_spec (n - (c - f)) l) as [Hlt2|Hge2].
        -- rewrite (u8_small (l - (n - (c - f)))) by lia.
           rewrite Z.sub_diag. change (u8 0) with 0.
           rewrite copy_octets_Z
             by (rewrite ?length_app, ?length_take, ?length_reverse, ?length_drop; lia).
           cbn [get_ret get_rng get_buf get_tasks first last rand count fst snd].
           rewrite Z.min_l by lia.
           rewrite (Z.sub_diag n), Z.sub_diag. change (Z.to_nat 0) with 0%nat.
           rewrite !take_0, drop_0. cbn [app].
           rewrite mod_wrap by lia.
           rewrite drop_app_length' by (rewrite length_take; lia).
           rewrite (take_app (drop _ r)), reverse_app.
           rewrite (take_ge (drop (Z.to_nat f) r)) by (rewrite length_drop; lia).
           rewrite take_take, length_drop.
           rewrite (drop_app_ge (drop _ r)) by (rewrite length_drop; lia).
           rewrite length_drop.
           destruct (Z.leb_spec (n - (c - f)) l); [|lia].
           rewrite take_drop_commute.
           rewrite <- app_assoc.
           repeat split; solve_list_arith.
        -- rewrite (u8_small (n - (c - f) - l)) by lia.
           rewrite copy_octets_Z
             by (rewrite ?length_app, ?length_take, ?length_reverse, ?length_drop; lia).
           cbn [get_ret get_rng get_buf get_tasks first last rand count fst snd].
           rewrite Z.min_r by lia.
           change (Z.to_nat 0) with 0%nat. rewrite drop_0.
           rewrite mod_wrap by lia.
           rewrite drop_app_length' by (rewrite length_take; lia).
           rewrite (take_app_le (take _ buf)) by (rewrite length_take; lia).
           rewrite take_take.
           rewrite (take_ge (_ ++ _))
             by (rewrite length_app, length_drop, length_take; lia).
           rewrite (drop_ge (_ ++ _))
             by (rewrite length_app, length_drop, length_take; lia).
           rewrite reverse_app, Z.leb_refl, !Z.sub_diag, <- app_assoc.
           repeat split; solve_list_arith.
Qed.

Lemma rng_pool_get_wf rng n buf :
  pool_wf rng → 0 ≤ n ≤ 255 → n ≤ Z.of_nat (length buf) →
  pool_wf (get_rng (rng_pool_get rng n buf)).
Proof.
  intros Hwf Hn Hbuf.
  destruct (rng_pool_get_spec rng n buf Hwf Hn Hbuf) as (_ & _ & _ & -> & _).
  destruct Hwf as (Hf & Hl & Hc & Hlen).
  unfold pool_wf, set_first; cbn [count threshold first last rand].
  pose proof (Z.mod_pos_bound
    (first rng + n `min` Z.of_nat (length (contents rng))) (count rng)).
  repeat split; lia.
Qed.

Lemma sub_mod_cases f l c :
  0 ≤ f < c → 0 ≤ l < c →
  (l - f) mod c = if f <=? l then l - f else c - f + l.
Proof.
  intros Hf Hl. destruct (Z.leb_spec f l).
  - apply Z.mod_small. lia.
  - replace (l - f) with (c - f + l + -1 * c) by lia.
    rewrite Z.mod_add, Z.mod_small; lia.
Qed.

Lemma succ_mod_cases l c :
  0 ≤ l < c → (l + 1) mod c = if l + 1 =? c then 0 else l + 1.
Proof.
  intros Hl. destruct (Z.eqb_spec (l + 1) c) as [->|Hne].
  - apply Z_mod_same_full.
  - apply Z.mod_small. lia.
Qed.

Lemma next_index_wf rng :
  pool_wf rng → next_index rng = (last rng + 1) mod count rng.
Proof.
  intros (Hf & Hl & Hc & Hlen). unfold next_index.
  rewrite u8_small, succ_mod_cases by lia. done.
Qed.

(** A pool is full exactly when it holds [count - 1] bytes, and empty exactly
    when it holds none. *)
Lemma pool_full_iff rng :
  pool_wf rng →
  pool_full rng ↔ Z.of_nat (length (contents rng)) = count rng - 1.
Proof.
  intros Hwf. unfold pool_full.
  rewrite next_index_wf, length_contents by done.
  destruct Hwf as (Hf & Hl & Hc & Hlen).
  rewrite succ_mod_cases, sub_mod_cases by lia.
  destruct (Z.eqb_spec (last rng + 1) (count rng)),
    (Z.leb_spec (first rng) (last rng)); lia.
Qed.

Lemma pool_empty_iff rng :
  pool_wf rng →
  pool_empty rng ↔ Z.of_nat (length (contents rng)) = 0.
Proof.
  intros Hwf. unfold pool_empty. rewrite length_contents by done.
  destruct Hwf as (Hf & Hl & Hc & Hlen).
  rewrite sub_mod_cases by lia.
  destruct (Z.leb_spec (first rng) (last rng)); lia.
Qed.

Lemma length_contents_bound rng :
  pool_wf rng → 0 ≤ Z.of_nat (length (contents rng)) ≤ count rng - 1.
Proof.
  intros Hwf. rewrite length_contents by done.
  destruct Hwf as (Hf & Hl & Hc & Hlen).
  pose proof (Z.mod_pos_bound (last rng - first rng) (count rng)). lia.
Qed.

(** [put] on a full pool: refused, nothing changes. *)
Lemma rng_pool_put_full rng st b :
  pool_full rng → rng_pool_put rng st b = (- ENOBUFS, rng).
Proof.
  unfold pool_full, next_index, rng_pool_put. intros ->.
  by rewrite Z.eqb_refl.
Qed.

(** [put] without [store] on a pool that is not full: nothing changes. *)
Lemma rng_pool_put_nostore rng b :
  ¬ pool_full rng → rng_pool_put rng false b = (- EBUSY, rng).
Proof.
  unfold pool_full, next_index, rng_pool_put. intros H.
  destruct (Z.eqb_spec
    (if u8 (last rng + 1) =? count rng then 0 else u8 (last rng + 1))
    (first rng)); done.
Qed.

Lemma take_S_insert (X : list Z) (i : nat) b :
  (i < length X)%nat → take (S i) (<[i:=b]> X) = take i X ++ [b].
Proof.
  intros H. rewrite (take_S_r _ _ b) by (by apply list_lookup_insert_eq).
  by rewrite take_insert_ge by lia.
Qed.

Lemma contents_put rng b :
  pool_wf rng → ¬ pool_full rng →
  contents (set_last (set_rand rng (<[Z.to_nat (last rng) := b]> (rand rng)))
                     ((last rng + 1) mod count rng))
  = contents rng ++ [b].
Proof.
  intros Hwf Hnf. unfold pool_full in Hnf. rewrite next_index_wf in Hnf by done.
  destruct Hwf as (Hf & Hl & Hc & Hlen). revert Hnf.
  destruct rng as [c t f l r]; cbn [count threshold first last rand] in *.
  rewrite succ_mod_cases by lia.
  unfold contents, set_last, set_rand; cbn [count threshold first last rand].
  destruct (Z.eqb_spec (l + 1) c) as [E|E]; intros Hnf.
  - (* the tail wraps to slot 0 *)
    destruct (Z.leb_spec f 0); [lia|]. destruct (Z.leb_spec f l); [|lia].
    change (Z.to_nat 0) with 0%nat. rewrite take_0, app_nil_r.
    rewrite take_ge by (rewrite length_insert; lia).
    rewrite drop_insert_ge by lia.
    rewrite <- (take_ge (<[_:=_]> _) (S (Z.to_nat l - Z.to_nat f)))
      by (rewrite length_insert, length_drop; lia).
    rewrite take_S_insert by (rewrite length_drop; lia).
    solve_list_arith.
  - destruct (Z.leb_spec f l) as [Hfl|Hfl].
    + destruct (Z.leb_spec f (l + 1)); [|lia].
      rewrite drop_insert_ge by lia.
      replace (Z.to_nat (l + 1 - f)) with (S (Z.to_nat l - Z.to_nat f)) by lia.
      rewrite take_S_insert by (rewrite length_drop; lia).
      solve_list_arith.
    + destruct (Z.leb_spec f (l + 1)); [lia|].
      rewrite take_insert_lt by lia.
      rewrite drop_insert_lt by lia.
      replace (Z.to_nat (l + 1)) with (S (Z.to_nat l)) by lia.
      rewrite take_S_insert by lia.
      by rewrite app_assoc.
Qed.

(** [put] with [store] on a pool that is not full appends the byte. *)
Lemma rng_pool_put_store rng b :
  pool_wf rng → ¬ pool_full rng →
  let rng' := set_last (set_rand rng (<[Z.to_nat (last rng) := b]> (rand rng)))
                       ((last rng + 1) mod count rng) in
  rng_pool_put rng true b
    = (if Z.of_nat (length (contents rng)) + 1 =? count rng - 1
       then 0 else - EBUSY, rng') ∧
  pool_wf rng' ∧
  contents rng' = contents rng ++ [b].
Proof.
  intros Hwf Hnf rng'.
  assert (pool_wf rng') as Hwf'.
  { destruct Hwf as (Hf & Hl & Hc & Hlen). subst rng'.
    unfold pool_wf, set_last, set_rand; cbn [count threshold first last rand].
    rewrite length_insert.
    pose proof (Z.mod_pos_bound (last rng + 1) (count rng)).
    repeat split; lia. }
  assert (contents rng' = contents rng ++ [b]) as Hcont
    by (by apply contents_put).
  split; [|done].
  unfold rng_pool_put.
  fold (next_index rng).
  destruct (Z.eqb_spec (next_index rng) (first rng)) as [E|_]; [done|].
  cbn [negb]. rewrite next_index_wf by done.
  replace (mem_store (rand rng) (last rng) b)
    with (<[Z.to_nat (last rng) := b]> (rand rng))
    by (unfold mem_store; rewrite bool_decide_true; [done|destruct Hwf; lia]).
  fold rng'.
  change (set_last (set_rand rng (<[Z.to_nat (last rng):=b]> (rand rng)))
            ((last rng + 1) `mod` count rng)) with rng'.
  fold (next_index rng').
  pose proof (pool_full_iff rng' Hwf') as Hfull.
  unfold pool_full in Hfull. rewrite Hcont, length_app in Hfull.
  cbn [length] in Hfull.
  change (count rng') with (count rng) in Hfull.
  destruct (Z.eqb_spec (next_index rng') (first rng')) as [E|E],
    (Z.eqb_spec (Z.of_nat (length (contents rng)) + 1) (count rng - 1)) as [E'|E'];
    try done; exfalso; lia.
Qed.

(** ** Sequences of operations *)

Lemma fresh_ok mem len thr :
  1 ≤ len ≤ 255 → Z.of_nat (length mem) = len → tracked_ok (fresh mem len thr).
Proof.
  intros Hlen Hmem. unfold tracked_ok, fresh, rng_pool_init, pool_wf, contents.
  cbn. rewrite take_0. cbn. lia.
Qed.

Lemma put_ret_cases rng st b :
  (rng_pool_put rng st b).1 = - ENOBUFS ∧ pool_full rng ∨
  (rng_pool_put rng st b).1 = - EBUSY ∧ ¬ pool_full rng ∨
  (rng_pool_put rng st b).1 = 0 ∧ ¬ pool_full rng ∧ st = true.
Proof.
  unfold pool_full, rng_pool_put. fold (next_index rng).
  destruct (Z.eqb_spec (next_index rng) (first rng)); [by left|].
  destruct st; cbn [negb]; [|by right; left].
  match goal with |- context [if ?c then (0, _) else _] => destruct c end;
    cbn; auto.
Qed.

Lemma track_op_ok t op :
  tracked_ok t →
  tracked_ok (track_op t op) ∧
  count (t_rng (track_op t op)) = count (t_rng t) ∧
  threshold (t_rng (track_op t op)) = threshold (t_rng t) ∧
  contents (t_rng (track_op t op))
    = spec_fifo (count (t_rng t)) (contents (t_rng t)) [op].
Proof.
  intros [Hwf Hp]. destruct op as [st b|n]; cbn [track_op spec_fifo].
  - destruct (decide (pool_full (t_rng t))) as [Hfull|Hnf].
    + rewrite rng_pool_put_full by done.
      rewrite Z.eqb_refl, andb_false_r. cbn [t_rng t_pending negb].
      apply pool_full_iff in Hfull; [|done].
      destruct (Z.ltb_spec (Z.of_nat (length (contents (t_rng t))))
                  (count (t_rng t) - 1)); [lia|].
      rewrite andb_false_r. done.
    + pose proof (length_contents_bound _ Hwf).
      assert (Z.of_nat (length (contents (t_rng t))) < count (t_rng t) - 1)
        by (rewrite pool_full_iff in Hnf by done; lia).
      destruct (Z.ltb_spec (Z.of_nat (length (contents (t_rng t))))
                  (count (t_rng t) - 1)); [|lia].
      destruct st.
      * destruct (rng_pool_put_store (t_rng t) b Hwf Hnf) as (-> & Hwf' & Hc).
        cbn [andb t_rng t_pending].
        assert (((if Z.of_nat (length (contents (t_rng t))) + 1
                         =? count (t_rng t) - 1
                  then 0 else - EBUSY) =? - ENOBUFS) = false) as ->
          by (case_match; done).
        cbn [negb t_rng t_pending]. unfold tracked_ok. cbn [t_rng t_pending].
        rewrite Hc, length_app. cbn [length].
        split_and!; try done. lia.
      * rewrite rng_pool_put_nostore by done. cbn [andb t_rng t_pending].
        done.
  - pose proof (u8_range n) as Hn.
    assert (u8 n ≤ Z.of_nat (length (replicate (Z.to_nat (u8 n)) 0)))
      as Hbuf by (rewrite length_replicate; lia).
    destruct (rng_pool_get_spec (t_rng t) (u8 n) _ Hwf Hn Hbuf)
      as (Hret & _ & _ & Hrng & Hc).
    pose proof (rng_pool_get_wf (t_rng t) (u8 n) _ Hwf Hn Hbuf) as Hwf'.
    unfold tracked_ok. cbn [t_rng t_pending].
    rewrite Hc, Hret, length_drop. rewrite Hrng at 2 3.
    split_and!; try done.
    + lia.
    + destruct (Z.min_spec (u8 n) (Z.of_nat (length (contents (t_rng t)))))
        as [[? ->]|[? ->]]; [done|].
      rewrite Nat2Z.id, !drop_ge; [done| lia | lia].
Qed.

Lemma track_ops_ok ops : ∀ t,
  tracked_ok t →
  let t' := track_ops ops t in
  tracked_ok t' ∧
  count (t_rng t') = count (t_rng t) ∧
  threshold (t_rng t') = threshold (t_rng t) ∧
  contents (t_rng t') = spec_fifo (count (t_rng t)) (contents (t_rng t)) ops.
Proof.
  induction ops as [|op ops IH]; intros t Hok; cbn [track_ops fold_left spec_fifo].
  - done.
  - destruct (track_op_ok t op Hok) as (Hok1 & Hc1 & Ht1 & Hq1).
    destruct (IH _ Hok1) as (Hok' & Hc' & Ht' & Hq').
    fold (track_ops ops (track_op t op)).
    rewrite Hc', Ht', Hq', Hc1, Ht1, Hq1. split_and!; try done.
    destruct op; done.
Qed.

Lemma pool_puts_contents bs : ∀ rng,
  pool_wf rng →
  Z.of_nat (length (contents rng)) + Z.of_nat (length bs) ≤ count rng - 1 →
  pool_wf (pool_puts bs rng) ∧
  contents (pool_puts bs rng) = contents rng ++ bs ∧
  count (pool_puts bs rng) = count rng ∧
  threshold (pool_puts bs rng) = threshold rng.
Proof.
  induction bs as [|b bs IH]; intros rng Hwf Hlen; cbn [pool_puts fold_left].
  - by rewrite app_nil_r.
  - cbn [length] in Hlen.
    assert (¬ pool_full rng) as Hnf by (rewrite pool_full_iff by done; lia).
    destruct (rng_pool_put_store rng b Hwf Hnf) as (-> & Hwf' & Hc).
    cbn [snd].
    set (rng' := set_last _ _) in *.
    change (fold_left _ bs rng') with (pool_puts bs rng').
    destruct (IH rng') as (? & Hc' & ? & ?);
      [done | rewrite Hc, length_app; cbn [length]; change (count rng') with (count rng); lia |].
    split_and!; try done. by rewrite Hc', Hc, <- app_assoc.
Qed.

Lemma fresh_contents mem len thr : contents (rng_pool_init mem len thr) = [].
Proof. unfold contents, rng_pool_init. cbn. by rewrite take_0. Qed.

Lemma fresh_wf mem len thr :
  1 ≤ len ≤ 255 → Z.of_nat (length mem) = len →
  pool_wf (rng_pool_init mem len thr).
Proof. intros. unfold pool_wf, rng_pool_init. cbn. lia. Qed.

(** ** Claims about one ring pool *)

(** C7.  On a full pool, [put] returns [-ENOBUFS] (the pool's "Full") and
    changes nothing, neither the indices nor the stored bytes; so does every
    further [put] as long as no [get] intervenes. *)
Theorem put_on_full_pool_is_refused rng ps :
  pool_wf rng →
  (last rng + 1) mod count rng = first rng →
  pool_put_rets ps rng = (replicate (length ps) (- ENOBUFS), rng).
Proof.
  intros Hwf Hfull.
  assert (pool_full rng) as Hf
    by (unfold pool_full; by rewrite next_index_wf).
  clear Hfull. induction ps as [|[st b] ps IH]; cbn [pool_put_rets]; [done|].
  rewrite rng_pool_put_full by done. rewrite IH. done.
Qed.

Lemma put_on_full_pool_is_refused_witness :
  pool_put_rets [(true, 9); (false, 10); (true, 11)] scenario_pool
  = (replicate 3 (- ENOBUFS), scenario_pool).
Proof.
  apply (put_on_full_pool_is_refused scenario_pool
           [(true, 9); (false, 10); (true, 11)]).
  - vm_compute. repeat split; discriminate.
  - reflexivity.
Defined.

(** C8.  Starting from an initialised pool, any sequence of [put]s and [get]s
    keeps both indices inside the array; the pool holds no pending byte
    exactly when [first = last], and it holds its maximum of [capacity - 1]
    exactly when the tail advanced by one, modulo the capacity, equals the
    head. *)
Theorem indices_stay_in_range mem C T ops :
  2 ≤ C ≤ 255 → T < C → Z.of_nat (length mem) = C →
  let t := track_ops ops (fresh mem C T) in
  let rng := t_rng t in
  0 ≤ first rng < C ∧ 0 ≤ last rng < C ∧
  0 ≤ t_pending t ≤ C - 1 ∧
  (t_pending t = 0 ↔ first rng = last rng) ∧
  (t_pending t = C - 1 ↔ (last rng + 1) mod C = first rng).
Proof.
  intros HC _ Hmem t rng.
  destruct (track_ops_ok ops (fresh mem C T)) as ([Hwf Hp] & Hc & _ & _);
    [apply fresh_ok; lia|].
  fold t in Hwf, Hp, Hc. fold rng in Hwf, Hc. cbn in Hc.
  pose proof (pool_empty_iff rng Hwf) as He.
  pose proof (pool_full_iff rng Hwf) as Hf.
  pose proof (length_contents_bound rng Hwf) as Hb.
  unfold pool_empty in He. unfold pool_full in Hf.
  rewrite next_index_wf in Hf by done.
  rewrite Hc in *. rewrite Hp.
  destruct Hwf as (? & ? & ? & ?). rewrite Hc in *.
  fold rng. split_and!; [lia.. | by symmetry | by symmetry].
Qed.

Lemma indices_stay_in_range_witness :
  let t := track_ops two_gets_below (fresh scenario_mem 8 2) in
  let rng := t_rng t in
  0 ≤ first rng < 8 ∧ 0 ≤ last rng < 8 ∧
  0 ≤ t_pending t ≤ 8 - 1 ∧
  (t_pending t = 0 ↔ first rng = last rng) ∧
  (t_pending t = 8 - 1 ↔ (last rng + 1) mod 8 = first rng).
Proof.
  apply (indices_stay_in_range scenario_mem 8 2 two_gets_below).
  - lia.
  - lia.
  - reflexivity.
Defined.

(** The specification's example: after [0x11 .. 0x17] went into a pool of
    capacity 8, a [get] of 5 leaves [0x15, 0x14, 0x13, 0x12, 0x11] in the
    buffer. *)
Example scenario_get_five :
  get_buf (rng_pool_get scenario_pool 5 (replicate 5 0)) = [21; 20; 19; 18; 17].
Proof. by vm_compute. Qed.

(** C3, as the specification words it, fails on its own example: the buffer
    does not hold [0x11 .. 0x15] in insertion order. *)
Lemma get_in_put_order_fails :
  ¬ spec_get_in_put_order scenario_mem 8 2 scenario_bytes 5.
Proof. unfold spec_get_in_put_order. vm_compute. discriminate. Qed.

(** C3, amended.  After any sequence of operations on an initialised pool, a
    [get] of [n] takes the [k = min n pending] oldest pending bytes, in the
    order the [put]s inserted them, and writes them from buffer position
    [n - 1] downwards: the [i]-th oldest byte lands at position [n - 1 - i].
    The buffer positions [n - k .. n - 1] therefore hold those bytes in
    reverse insertion order; the rest of the buffer is untouched and the
    shortfall [n - k] is returned. *)
Theorem get_delivers_oldest_first_from_the_end mem C T ops n buf :
  2 ≤ C ≤ 255 → Z.of_nat (length mem) = C →
  0 ≤ n ≤ 255 → n ≤ Z.of_nat (length buf) →
  let q := spec_fifo C [] ops in
  let k := Z.min n (Z.of_nat (length q)) in
  let o := rng_pool_get (t_rng (track_ops ops (fresh mem C T))) n buf in
  get_ret o = n - k ∧
  get_buf o = take (Z.to_nat (n - k)) buf ++ reverse (take (Z.to_nat k) q)
                ++ drop (Z.to_nat n) buf ∧
  (∀ i : nat, Z.of_nat i < k →
     get_buf o !! Z.to_nat (n - 1 - Z.of_nat i) = q !! i).
Proof.
  intros HC Hmem Hn Hbuf q k o.
  destruct (track_ops_ok ops (fresh mem C T)) as ([Hwf _] & _ & _ & Hq);
    [apply fresh_ok; lia|].
  cbn [fresh t_rng] in Hq. rewrite fresh_contents in Hq.
  change (count (rng_pool_init mem C T)) with C in Hq. fold q in Hq.
  destruct (rng_pool_get_spec _ n buf Hwf Hn Hbuf) as (Hret & Hb & _).
  rewrite Hq in Hret, Hb. fold k in Hret, Hb. fold o in Hret, Hb.
  split_and!; [done..|].
  intros i Hi. rewrite Hb.
  rewrite lookup_app_r by (rewrite length_take; lia).
  rewrite length_take.
  rewrite lookup_app_l by (rewrite length_reverse, length_take; lia).
  rewrite reverse_lookup by (rewrite length_take; lia).
  rewrite length_take, lookup_take_lt by lia.
  f_equal. lia.
Qed.

Lemma get_delivers_oldest_first_from_the_end_witness :
  get_buf (rng_pool_get
             (t_rng (track_ops (map (OpPut true) scenario_bytes)
                       (fresh scenario_mem 8 2)))
             5 (replicate 5 0)) !! Z.to_nat (5 - 1 - Z.of_nat 0)
  = spec_fifo 8 [] (map (OpPut true) scenario_bytes) !! 0%nat.
Proof.
  refine (proj2 (proj2 (get_delivers_oldest_first_from_the_end
            scenario_mem 8 2 (map (OpPut true) scenario_bytes) 5
            (replicate 5 0) _ _ _ _)) 0%nat _);
    vm_compute; try done; split; discriminate.
Defined.

(** The START decision of a [get], in terms of the bytes the pool holds. *)
Lemma get_tasks_pending t n buf :
  tracked_ok t → 0 ≤ n ≤ 255 → n ≤ Z.of_nat (length buf) →
  let o := rng_pool_get (t_rng t) n buf in
  get_tasks o = (if t_pending t - (n - get_ret o) <? threshold (t_rng t)
                 then [NRF_RNG_TASK_START] else []).
Proof.
  intros [Hwf Hp] Hn Hbuf o.
  destruct (rng_pool_get_spec _ n buf Hwf Hn Hbuf) as (Hret & _ & Ht & _).
  fold o in Hret, Ht. rewrite Ht, Hret, Hp. solve_list_arith.
Qed.

Lemma track_op_starts t op :
  tracked_ok t →
  (t_crossings (track_op t op) + t_starts t
   ≤ t_starts (track_op t op) + t_crossings t)%nat.
Proof.
  intros Hok. destruct op as [st b|n]; cbn [track_op].
  - destruct (rng_pool_put _ _ _). cbn. lia.
  - cbn [t_starts t_crossings].
    pose proof (u8_range n) as Hn.
    rewrite (get_tasks_pending t (u8 n)); [|done..|rewrite length_replicate; lia].
    destruct (_ <? threshold (t_rng t)); rewrite ?andb_false_r, ?andb_true_r;
      cbn; [|lia].
    destruct (decide (true = true)); [|done]. case_match; cbn; lia.
Qed.

Lemma track_ops_starts ops : ∀ t,
  tracked_ok t → (t_crossings t ≤ t_starts t)%nat →
  (t_crossings (track_ops ops t) ≤ t_starts (track_ops ops t))%nat.
Proof.
  induction ops as [|op ops IH]; intros t Hok Hle; cbn [track_ops fold_left];
    [done|].
  apply IH; [by apply track_op_ok|].
  pose proof (track_op_starts t op Hok). lia.
Qed.

(** With threshold 2 and three bytes in, a [get] of 2 and then a [get] of 1
    cross the threshold once and trigger START twice. *)
Example two_gets_below_counts :
  let t := track_ops two_gets_below (fresh scenario_mem 8 2) in
  t_starts t = 2%nat ∧ t_crossings t = 1%nat.
Proof. by vm_compute. Qed.

(** C6, as the specification words it, fails: on that sequence the STARTs
    are not one per downward crossing. *)
Lemma one_start_per_crossing_fails :
  ¬ spec_one_start_per_crossing scenario_mem 8 2 two_gets_below.
Proof. unfold spec_one_start_per_crossing. vm_compute. discriminate. Qed.

(** C6, amended.  After any sequence of operations on an initialised pool, a
    [get] triggers START once if the number of bytes it leaves pending is
    strictly below the threshold and not at all otherwise (equality does not
    trigger it).  The test is made on every [get], whether or not the count
    was already below the threshold, so no downward crossing is missed:
    crossings never outnumber the STARTs. *)
Theorem get_starts_iff_below_threshold mem C T ops n buf :
  2 ≤ C ≤ 255 → Z.of_nat (length mem) = C →
  0 ≤ n ≤ 255 → n ≤ Z.of_nat (length buf) →
  let t := track_ops ops (fresh mem C T) in
  let o := rng_pool_get (t_rng t) n buf in
  let pending' := t_pending t - (n - get_ret o) in
  get_tasks o = (if pending' <? T then [NRF_RNG_TASK_START] else []) ∧
  (t_crossings t ≤ t_starts t)%nat.
Proof.
  intros HC Hmem Hn Hbuf t o p'.
  destruct (track_ops_ok ops (fresh mem C T)) as (Hok & _ & Ht & _);
    [apply fresh_ok; lia|].
  fold t in Hok, Ht. cbn in Ht. split.
  - subst o p'. rewrite get_tasks_pending by done. by rewrite Ht.
  - apply track_ops_starts; [apply fresh_ok; lia | done].
Qed.

Lemma get_starts_iff_below_threshold_witness :
  let t := track_ops [OpPut true 1; OpPut true 2; OpPut true 3]
             (fresh scenario_mem 8 2) in
  let o := rng_pool_get (t_rng t) 1 [0] in
  let pending' := t_pending t - (1 - get_ret o) in
  get_tasks o = (if pending' <? 2 then [NRF_RNG_TASK_START] else []) ∧
  (t_crossings t ≤ t_starts t)%nat.
Proof.
  apply (get_starts_iff_below_threshold scenario_mem 8 2
           [OpPut true 1; OpPut true 2; OpPut true 3] 1 [0]);
    vm_compute; try done; split; discriminate.
Defined.

(** The boundary of the specification's scenario: two bytes left with
    threshold 2 trigger nothing, one byte left triggers START. *)
Example scenario_boundary :
  get_tasks (rng_pool_get scenario_pool 5 (replicate 5 0)) = [] ∧
  get_tasks (rng_pool_get scenario_pool 6 (replicate 6 0)) = [NRF_RNG_TASK_START].
Proof. by vm_compute. Qed.

(** A pool that holds nothing takes the next byte the way a freshly
    initialised pool does: same status, and the byte is the one pending
    byte afterwards. *)
Lemma put_on_empty_pool rng b :
  pool_wf rng → 2 ≤ count rng → contents rng = [] →
  (rng_pool_put rng true b).1 = (if count rng =? 2 then 0 else - EBUSY) ∧
  pool_wf (rng_pool_put rng true b).2 ∧
  contents (rng_pool_put rng true b).2 = [b].
Proof.
  intros Hwf HC Hq.
  assert (¬ pool_full rng) as Hnf
    by (rewrite pool_full_iff, Hq by done; cbn; lia).
  destruct (rng_pool_put_store rng b Hwf Hnf) as (-> & Hwf' & Hc).
  rewrite Hq in *. cbn [fst snd length app] in *.
  split_and!; [|done..].
  destruct (Z.eqb_spec (count rng) 2); case_match eqn:E'; try done;
    apply Z.eqb_eq in E' || apply Z.eqb_neq in E'; lia.
Qed.

Lemma rng_pool_put_first rng st b : first (rng_pool_put rng st b).2 = first rng.
Proof. unfold rng_pool_put. repeat case_match; done. Qed.

Lemma pool_puts_first bs : ∀ rng, first (pool_puts bs rng) = first rng.
Proof.
  induction bs as [|b bs IH]; intros rng; cbn [pool_puts fold_left]; [done|].
  fold (pool_puts bs). by rewrite IH, rng_pool_put_first.
Qed.

(** C9.  Inserting [C - 1] bytes into a freshly initialised pool and draining
    all [C - 1] of them leaves the pool empty ([first = last], both at
    [C - 1] rather than 0), and the next [put] behaves as on the fresh pool:
    it reports the same status and stores the byte, which the following
    [get] hands out. *)
Theorem fill_then_drain_is_like_fresh mem C T bs buf b :
  2 ≤ C ≤ 255 → Z.of_nat (length mem) = C →
  Z.of_nat (length bs) = C - 1 → C - 1 ≤ Z.of_nat (length buf) →
  let fresh_pool := rng_pool_init mem C T in
  let o := rng_pool_get (pool_puts bs fresh_pool) (C - 1) buf in
  let rng := get_rng o in
  get_ret o = 0 ∧
  take (Z.to_nat (C - 1)) (get_buf o) = reverse bs ∧
  first rng = last rng ∧ first rng = C - 1 ∧
  (rng_pool_put rng true b).1 = (rng_pool_put fresh_pool true b).1 ∧
  get_buf (rng_pool_get (rng_pool_put rng true b).2 1 [0]) = [b] ∧
  get_buf (rng_pool_get (rng_pool_put fresh_pool true b).2 1 [0]) = [b].
Proof.
  intros HC Hmem Hbs Hbuf fresh_pool o rng.
  assert (pool_wf fresh_pool) as Hwf0 by (apply fresh_wf; lia).
  pose proof (fresh_contents mem C T) as Hq0. fold fresh_pool in Hq0.
  destruct (pool_puts_contents bs fresh_pool Hwf0) as (Hwf1 & Hq1 & Hc1 & _);
    [rewrite Hq0; cbn; lia|].
  rewrite Hq0 in Hq1. cbn [app] in Hq1. change (count fresh_pool) with C in Hc1.
  destruct (rng_pool_get_spec _ (C - 1) buf Hwf1) as (Hret & Hb & _ & Hrng & Hq2);
    [lia..|].
  pose proof (rng_pool_get_wf _ (C - 1) buf Hwf1) as Hwf2.
  fold o in Hret, Hb, Hrng, Hq2, Hwf2. fold rng in Hrng, Hq2, Hwf2.
  rewrite Hq1, Hbs, Z.min_id in *. rewrite Z.sub_diag in *.
  rewrite drop_ge in Hq2 by lia. rewrite (take_ge bs) in Hb by lia.
  specialize (Hwf2 ltac:(lia) ltac:(lia)).
  assert (count rng = C) as HcC by (by rewrite Hrng).
  destruct (put_on_empty_pool rng b) as (Hr & Hw & Hq); [done|lia|done|].
  destruct (put_on_empty_pool fresh_pool b) as (Hr0 & Hw0 & Hq0'); [done|cbn; lia|done|].
  assert (∀ p, pool_wf p → contents p = [b] →
               get_buf (rng_pool_get p 1 [0]) = [b]) as Hget.
  { intros p Hp Hpq.
    destruct (rng_pool_get_spec p 1 [0] Hp) as (_ & -> & _); [lia|cbn; lia|].
    rewrite Hpq. done. }
  split_and!.
  - done.
  - rewrite Hb. change (Z.to_nat 0) with 0%nat. rewrite take_0. cbn [app].
    rewrite take_app_length'; [done|]. rewrite length_reverse. lia.
  - by apply pool_empty_iff; [|rewrite Hq2].
  - rewrite Hrng. cbn [first set_first].
    rewrite pool_puts_first, Hc1. cbn [first fresh_pool rng_pool_init].
    rewrite Z.add_0_l. apply Z.mod_small. lia.
  - rewrite Hr, Hr0, HcC. done.
  - by apply Hget.
  - by apply Hget.
Qed.

Lemma fill_then_drain_is_like_fresh_witness :
  let fresh_pool := rng_pool_init scenario_mem 8 2 in
  let o := rng_pool_get (pool_puts scenario_bytes fresh_pool) (8 - 1)
             (replicate 7 0) in
  let rng := get_rng o in
  get_ret o = 0 ∧
  take (Z.to_nat (8 - 1)) (get_buf o) = reverse scenario_bytes ∧
  first rng = last rng ∧ first rng = 8 - 1 ∧
  (rng_pool_put rng true 99).1 = (rng_pool_put fresh_pool true 99).1 ∧
  get_buf (rng_pool_get (rng_pool_put rng true 99).2 1 [0]) = [99] ∧
  get_buf (rng_pool_get (rng_pool_put fresh_pool true 99).2 1 [0]) = [99].
Proof.
  apply (fill_then_drain_is_like_fresh scenario_mem 8 2 scenario_bytes
           (replicate 7 0) 99);
    vm_compute; try done; split; discriminate.
Defined.

(** ** The interrupt handler *)

Lemma status_of_full r : status_of r = Full ↔ r ≠ - EBUSY.
Proof. unfold status_of. destruct (Z.eqb_spec r (- EBUSY)); naive_solver. Qed.

Lemma status_of_stored r : status_of r = Stored ↔ r = - EBUSY.
Proof. unfold status_of. destruct (Z.eqb_spec r (- EBUSY)); naive_solver. Qed.

(** [put] reports something other than [-EBUSY] exactly when the pool is
    full after the call. *)
Lemma put_reports_full rng st b :
  (rng_pool_put rng st b).1 ≠ - EBUSY ↔ pool_full (rng_pool_put rng st b).2.
Proof.
  unfold rng_pool_put. fold (next_index rng).
  destruct (Z.eqb_spec (next_index rng) (first rng)) as [E|E]; [done|].
  destruct st; cbn [negb]; [|done].
  set (rng2 := set_last _ _).
  change (if u8 (last rng2 + 1) =? count rng2 then 0 else u8 (last rng2 + 1))
    with (next_index rng2).
  unfold pool_full.
  destruct (Z.eqb_spec (next_index rng2) (first rng2)); done.
Qed.

(** A [put] that changed the pool was asked to store. *)
Lemma put_changes_only_if_store rng st b :
  (rng_pool_put rng st b).2 ≠ rng → st = true.
Proof.
  unfold rng_pool_put. destruct st; [done|].
  repeat case_match; cbn; done.
Qed.

(** The handler when no byte is ready. *)
Lemma isr_not_ready m :
  EVENTS_VALRDY (hw m) = false →
  isr m = IsrOut m false None None [].
Proof.
  intros H. unfold isr, random_byte_get. rewrite H.
  destruct m as [dd h irq]. done.
Qed.

(** The handler when a byte is ready, spelled out by what the ISR-tier
    [put] returned. *)
Lemma isr_ready m :
  EVENTS_VALRDY (hw m) = true →
  let dd := dev m in
  let byte := u8 (VALUE (hw m)) in
  let h := NrfRng false (VALUE (hw m)) in
  let p1 := rng_pool_put (isr_pool dd) true byte in
  let p2 := rng_pool_put (thr_pool dd) (p1.1 =? - ENOBUFS) byte in
  isr m =
    if p1.1 =? - EBUSY then
      IsrOut (Machine (DevData (sem_lock dd) (sem_sync dd) p1.2 (thr_pool dd))
                h (irq_enabled m))
             true (Some p1.1) None []
    else
      IsrOut (Machine (DevData (sem_lock dd) (k_sem_give (sem_sync dd)) p1.2 p2.2)
                h (irq_enabled m))
             true (Some p1.1) (Some p2.1)
             ([EvGive SEM_SYNC] ++
              if negb (p2.1 =? - EBUSY) then [EvTask NRF_RNG_TASK_STOP] else []).
Proof.
  intros H dd byte h p1 p2. unfold isr, random_byte_get. rewrite H.
  pose proof (u8_range (VALUE (hw m))).
  destruct (Z.ltb_spec (u8 (VALUE (hw m))) 0); [lia|].
  rewrite (u8_small (u8 _)) by lia.
  fold dd byte. subst p2. fold p1. destruct p1 as [r1 pi]. cbn [fst snd].
  destruct (Z.eqb_spec r1 (- EBUSY)) as [->|E]; cbn [negb].
  - done.
  - destruct (rng_pool_put (thr_pool dd) (r1 =? - ENOBUFS) byte). done.
Qed.

Lemma isr_sampled_ready m : isr_sampled (isr m) = true → EVENTS_VALRDY (hw m) = true.
Proof.
  destruct (EVENTS_VALRDY (hw m)) eqn:E; [done|].
  by rewrite isr_not_ready.
Qed.

(** With the ISR tier full the handler writes the thread tier and gives the
    wake. *)
Example isr_tier_full_run :
  let o := isr isr_tier_full in
  isr_ret_isr o = Some (- ENOBUFS) ∧
  isr_ret_thr o = Some (- EBUSY) ∧
  contents (thr_pool (dev (isr_machine o))) = [66] ∧
  isr_events o = [EvGive SEM_SYNC].
Proof. by vm_compute. Qed.

(** C1, as the specification words it, fails: the ISR-tier [put] reported
    [Full], and yet the thread tier was written. *)
Lemma isr_protocol_fails : ¬ spec_isr_protocol isr_tier_full.
Proof.
  unfold spec_isr_protocol. intros H.
  destruct (H eq_refl) as (_ & H2 & _).
  destruct (H2 eq_refl) as [Hthr _].
  vm_compute in Hthr. discriminate.
Qed.

(** C1, amended.  In an invocation that sampled a byte, the thread-tier [put]
    is made only when the ISR-tier [put] reported [Full], and it stores the
    byte only when the ISR tier refused it ([-ENOBUFS]); when the ISR-tier
    [put] reported [Stored] the thread tier is left alone and no wake is
    given; the wake is given, once, exactly when the ISR-tier [put] reported
    [Full], whatever the thread-tier [put] reports. *)
Theorem isr_thread_tier_protocol m :
  let o := isr m in
  let byte := u8 (VALUE (hw m)) in
  isr_sampled o = true →
  ∃ r1, isr_ret_isr o = Some r1 ∧
    r1 = (rng_pool_put (isr_pool (dev m)) true byte).1 ∧
    (status_of r1 = Stored →
       isr_ret_thr o = None ∧
       thr_pool (dev (isr_machine o)) = thr_pool (dev m) ∧
       filter (λ e, is_wake e = true) (isr_events o) = []) ∧
    (status_of r1 = Full →
       let p2 := rng_pool_put (thr_pool (dev m)) (r1 =? - ENOBUFS) byte in
       isr_ret_thr o = Some p2.1 ∧
       thr_pool (dev (isr_machine o)) = p2.2 ∧
       filter (λ e, is_wake e = true) (isr_events o) = [EvGive SEM_SYNC]) ∧
    (thr_pool (dev (isr_machine o)) ≠ thr_pool (dev m) → r1 = - ENOBUFS).
Proof.
  intros o byte Hs. apply isr_sampled_ready in Hs.
  subst o. rewrite (isr_ready m Hs). cbn zeta. fold byte.
  set (p1 := rng_pool_put (isr_pool (dev m)) true byte).
  set (p2 := rng_pool_put (thr_pool (dev m)) (p1.1 =? - ENOBUFS) byte).
  exists p1.1.
  destruct (Z.eqb_spec p1.1 (- EBUSY)) as [E|E];
    cbn [isr_ret_isr isr_ret_thr isr_machine isr_events dev thr_pool].
  - split_and!; try done.
    intros HF. apply status_of_full in HF. done.
  - split_and!; try done.
    + intros HS. apply status_of_stored in HS. done.
    + intros _. split_and!; try done.
      destruct (negb (p2.1 =? - EBUSY)); done.
    + intros Hne. apply put_changes_only_if_store in Hne.
      by apply Z.eqb_eq.
Qed.

Lemma isr_thread_tier_protocol_witness :
  ∃ r1, isr_ret_isr (isr isr_tier_full) = Some r1 ∧ r1 = - ENOBUFS.
Proof.
  destruct (isr_thread_tier_protocol isr_tier_full eq_refl)
    as (r1 & H1 & H2 & _).
  exists r1. split; [exact H1|]. rewrite H2. reflexivity.
Defined.

(** C5.  The handler triggers STOP if and only if, in that invocation, both
    the ISR-tier [put] and the thread-tier [put] reported [Full].  With no
    byte ready it makes no [put] and triggers nothing.  With a byte ready,
    [p1] is the [put] it makes on the ISR-tier pool it found and [p2] the
    [put] it makes on the thread-tier pool it found when [p1] reported
    [Full]; the pools it leaves are the ones these calls return, and STOP is
    triggered exactly when both reported [Full], which is exactly when both
    pools are full as the handler returns.  One tier reporting [Full] while
    the other reports [Stored], or is not consulted, never stops the
    generator. *)
Theorem stop_iff_both_tiers_full m :
  let o := isr m in
  let byte := u8 (VALUE (hw m)) in
  let p1 := rng_pool_put (isr_pool (dev m)) true byte in
  let p2 := rng_pool_put (thr_pool (dev m)) (p1.1 =? - ENOBUFS) byte in
  (EVENTS_VALRDY (hw m) = false →
     isr_events o = [] ∧ isr_ret_isr o = None ∧ isr_ret_thr o = None ∧
     dev (isr_machine o) = dev m) ∧
  (EVENTS_VALRDY (hw m) = true →
     isr_ret_isr o = Some p1.1 ∧
     isr_pool (dev (isr_machine o)) = p1.2 ∧
     (status_of p1.1 = Stored →
        isr_ret_thr o = None ∧
        thr_pool (dev (isr_machine o)) = thr_pool (dev m) ∧
        EvTask NRF_RNG_TASK_STOP ∉ isr_events o) ∧
     (status_of p1.1 = Full →
        isr_ret_thr o = Some p2.1 ∧
        thr_pool (dev (isr_machine o)) = p2.2 ∧
        (status_of p2.1 = Stored → EvTask NRF_RNG_TASK_STOP ∉ isr_events o)) ∧
     (EvTask NRF_RNG_TASK_STOP ∈ isr_events o ↔
        status_of p1.1 = Full ∧ status_of p2.1 = Full) ∧
     (EvTask NRF_RNG_TASK_STOP ∈ isr_events o ↔
        pool_full (isr_pool (dev (isr_machine o))) ∧
        pool_full (thr_pool (dev (isr_machine o))))).
Proof.
  intros o byte p1 p2. subst o. split; intros Hs.
  - by rewrite (isr_not_ready m Hs).
  - rewrite (isr_ready m Hs). cbn zeta. fold byte p1 p2.
    pose proof (put_reports_full (isr_pool (dev m)) true byte) as F1.
    pose proof (put_reports_full (thr_pool (dev m)) (p1.1 =? - ENOBUFS) byte)
      as F2.
    fold p1 in F1. fold p2 in F2.
    assert (EvTask NRF_RNG_TASK_STOP
              ∈ [EvGive SEM_SYNC; EvTask NRF_RNG_TASK_STOP])
      by (rewrite !elem_of_cons; auto).
    assert (EvTask NRF_RNG_TASK_STOP ∉ [EvGive SEM_SYNC])
      by (rewrite list_elem_of_singleton; discriminate).
    pose proof (not_elem_of_nil (EvTask NRF_RNG_TASK_STOP)).
    destruct (Z.eqb_spec p1.1 (- EBUSY)) as [E|E];
      cbn [isr_ret_isr isr_ret_thr isr_machine isr_events dev isr_pool
           thr_pool].
    + assert (status_of p1.1 = Stored) as S1 by (by apply status_of_stored).
      rewrite S1. split_and!; try done.
      * split; [done|]. by intros [? _].
      * split; [done|]. intros [F _]. by apply F1 in F.
    + assert (status_of p1.1 = Full) as S1 by (by apply status_of_full).
      rewrite S1.
      destruct (Z.eqb_spec p2.1 (- EBUSY)) as [E2|E2]; cbn [negb app].
      * assert (status_of p2.1 = Stored) as S2 by (by apply status_of_stored).
        rewrite S2. split_and!; try done.
        -- split; [done|]. by intros [_ ?].
        -- split; [done|]. intros [_ F]. by apply F2 in F.
      * assert (status_of p2.1 = Full) as S2 by (by apply status_of_full).
        rewrite S2. split_and!; try done.
        split; [intros _|done]. split; [by apply F1|by apply F2].
Qed.

Lemma stop_iff_both_tiers_full_witness :
  EVENTS_VALRDY (hw both_tiers_full) = true ∧
  EvTask NRF_RNG_TASK_STOP ∈ isr_events (isr both_tiers_full).
Proof.
  split; [reflexivity|].
  destruct (proj2 (stop_iff_both_tiers_full both_tiers_full) eq_refl)
    as (_ & _ & _ & _ & Hstop & _).
  apply Hstop. split; reflexivity.
Defined.

(** One tier full is not enough: with the ISR tier full and the thread tier
    taking the byte, the generator keeps running. *)
Example one_tier_full_no_stop :
  EvTask NRF_RNG_TASK_STOP ∉ isr_events (isr isr_tier_full).
Proof.
  destruct isr_tier_full_run as (_ & _ & _ & ->).
  rewrite list_elem_of_singleton. discriminate.
Qed.

(** ** The consumer API *)

(** A [get] of nothing leaves a well-formed pool and the buffer alone. *)
Lemma rng_pool_get_zero rng buf :
  pool_wf rng →
  get_ret (rng_pool_get rng 0 buf) = 0 ∧
  get_rng (rng_pool_get rng 0 buf) = rng ∧
  get_buf (rng_pool_get rng 0 buf) = buf.
Proof.
  intros Hwf.
  destruct (rng_pool_get_spec rng 0 buf Hwf) as (Hret & Hb & _ & Hrng & _);
    [lia..|].
  rewrite Z.min_l in * by lia. rewrite Z.add_0_r in Hrng.
  split_and!; [done| |].
  - rewrite Hrng. destruct Hwf as (Hf & _). rewrite Z.mod_small by lia.
    by destruct rng.
  - rewrite Hb. cbn. done.
Qed.

(** C10.  Without the busy-wait flag, [entropy_nrf5_get_entropy_isr] hands
    the low eight bits of its 16-bit [len] to the ISR-tier [get]: a call
    delivers at most 255 bytes, and when [len] is a multiple of 256 it reads
    nothing and returns 0, the value a fully satisfied request returns. *)
Theorem get_entropy_isr_truncates_length fuel samples m buf len flags :
  pool_wf (isr_pool (dev m)) →
  0 ≤ len < 65536 → len ≤ Z.of_nat (length buf) →
  Z.land flags ENTROPY_BUSYWAIT = 0 →
  ∃ o, entropy_nrf5_get_entropy_isr fuel samples m buf len flags = Some o ∧
    let g := rng_pool_get (isr_pool (dev m)) (len mod 256) buf in
    eo_ret o = get_ret g ∧ eo_buf o = get_buf g ∧
    isr_pool (dev (eo_machine o)) = get_rng g ∧
    0 ≤ bytes_delivered m o ≤ 255 ∧
    eo_ret o = len mod 256 - bytes_delivered m o ∧
    (len mod 256 = 0 →
       eo_ret o = 0 ∧ eo_buf o = buf ∧ eo_machine o = m ∧
       bytes_delivered m o = 0).
Proof.
  intros Hwf Hlen Hbuf Hfl. unfold entropy_nrf5_get_entropy_isr.
  rewrite Hfl. cbn [Z.eqb]. eexists; split; [done|].
  unfold u8, bytes_delivered.
  cbn [eo_ret eo_buf eo_machine dev isr_pool set_pools].
  pose proof (Z.mod_pos_bound len 256 ltac:(lia)) as Hm.
  pose proof (Z.mod_le len 256 ltac:(lia) ltac:(lia)) as Hle.
  destruct (rng_pool_get_spec _ (len mod 256) buf Hwf)
    as (Hret & _ & _ & _ & Hq); [lia..|].
  rewrite Hq, Hret, length_drop.
  split_and!; [done..|lia|lia|lia|].
  intros Hz. rewrite Hz in *.
  destruct (rng_pool_get_zero _ buf Hwf) as (_ & Hr0 & Hb0).
  rewrite Hr0, Hb0. split_and!; [lia|done| |lia].
  destruct m as [[] ? ?]. done.
Qed.

Lemma get_entropy_isr_truncates_length_witness :
  ∃ o, entropy_nrf5_get_entropy_isr 0 [] isr_tier_three (replicate 256 0) 256 0
       = Some o ∧ eo_ret o = 0 ∧ eo_machine o = isr_tier_three.
Proof.
  destruct (get_entropy_isr_truncates_length 0 [] isr_tier_three
              (replicate 256 0) 256 0) as (o & Ho & _ & _ & _ & _ & _ & Hz).
  - vm_compute. repeat split; discriminate.
  - lia.
  - vm_compute. discriminate.
  - reflexivity.
  - exists o. split; [exact Ho|]. destruct (Hz eq_refl) as (? & _ & ? & _).
    split; assumption.
Defined.

(** C2 on the code.  The call never waits, but what it returns is the number
    of bytes it could not deliver: asked for 5 when the pool holds 3, it
    moves 3 bytes into the buffer and returns 2; asked for 3, it moves 3 and
    returns 0.  The busy-wait branch of the same function returns the number
    of bytes delivered. *)
Theorem get_entropy_isr_returns_shortfall :
  (∃ o, entropy_nrf5_get_entropy_isr 0 [] isr_tier_three [0; 0; 0; 0; 0] 5 0
        = Some o ∧
        eo_ret o = 2 ∧ bytes_delivered isr_tier_three o = 3 ∧
        eo_buf o = [0; 0; 3; 2; 1]) ∧
  (∃ o, entropy_nrf5_get_entropy_isr 0 [] isr_tier_three [0; 0; 0] 3 0
        = Some o ∧
        eo_ret o = 0 ∧ bytes_delivered isr_tier_three o = 3 ∧
        eo_buf o = [3; 2; 1]) ∧
  (∃ o, entropy_nrf5_get_entropy_isr 9 [7; 8; 9] isr_tier_three [0; 0; 0] 3
          ENTROPY_BUSYWAIT = Some o ∧
        eo_ret o = 3 ∧ eo_buf o = [9; 8; 7]).
Proof. split_and!; eexists; (split; [by vm_compute|]); by vm_compute. Qed.

(** Whatever the pool holds, the call without the flag returns at once. *)
Lemma get_entropy_isr_never_waits fuel samples m buf len flags :
  Z.land flags ENTROPY_BUSYWAIT = 0 →
  is_Some (entropy_nrf5_get_entropy_isr fuel samples m buf len flags).
Proof.
  intros Hfl. unfold entropy_nrf5_get_entropy_isr. rewrite Hfl. cbn [Z.eqb].
  done.
Qed.

(** [rng_pool_get] returns an eight-bit value and writes no buffer position
    at or above the requested count. *)

Lemma rng_pool_get_ret_range rng n buf :
  0 ≤ get_ret (rng_pool_get rng n buf) ≤ 255.
Proof.
  unfold rng_pool_get.
  split_get_branches copy_octets_above copy_octets_ptr; cbn [get_ret];
    apply u8_range.
Qed.

Lemma rng_pool_get_above rng n buf (i : nat) :
  n ≤ Z.of_nat i → get_buf (rng_pool_get rng n buf) !! i = buf !! i.
Proof.
  intros Hi. unfold rng_pool_get.
  split_get_branches copy_octets_above copy_octets_ptr; cbn [get_buf].
  all: repeat match goal with
    | H : ∀ i : nat, ?d ≤ Z.of_nat i → _ |- _ =>
        specialize (H i ltac:(lia))
    end.
  all: congruence.
Qed.

Lemma rng_pool_get_length rng n buf :
  length (get_buf (rng_pool_get rng n buf)) = length buf.
Proof.
  unfold rng_pool_get.
  split_get_branches copy_octets_length copy_octets_ptr; cbn [get_buf];
    congruence.
Qed.

(** The blocking call never passes [rng_pool_get] a count above 255 and never
    moves the buffer pointer, so whatever it is asked for it leaves every
    buffer position from 255 on as it was. *)
Lemma get_entropy_chunk_above fuel : ∀ samples m len8 buf evs m' buf' s' evs' (i : nat),
  0 ≤ len8 ≤ 255 → 255 ≤ Z.of_nat i →
  get_entropy_chunk fuel samples m len8 buf evs = Some (m', buf', s', evs') →
  buf' !! i = buf !! i.
Proof.
  induction fuel as [|fuel IH]; intros samples m len8 buf evs m' buf' s' evs' i
    Hlen Hi; cbn [get_entropy_chunk].
  - destruct (len8 =? 0); [|done]. intros [= <- <- <- <-]. done.
  - destruct (len8 =? 0); [intros [= <- <- <- <-]; done|].
    destruct (k_sem_try_take _); [|done].
    pose proof (rng_pool_get_ret_range (thr_pool (dev m)) len8 buf).
    pose proof (rng_pool_get_above (thr_pool (dev m)) len8 buf i ltac:(lia)).
    destruct (negb _).
    + destruct (k_sem_take_sync _ _) as [[[? ?] ?]|]; [|done].
      intros Heq. etrans; [|done].
      eapply (IH _ _ _ _ _ _ _ _ _ i); [| |exact Heq]; lia.
    + intros Heq. etrans; [|done].
      eapply (IH _ _ _ _ _ _ _ _ _ i); [| |exact Heq]; lia.
Qed.

Lemma get_entropy_loop_above fuel ifuel : ∀ samples m len buf evs o (i : nat),
  255 ≤ Z.of_nat i →
  get_entropy_loop fuel ifuel samples m len buf evs = Some o →
  eo_buf o !! i = buf !! i.
Proof.
  induction fuel as [|fuel IH]; intros samples m len buf evs o i Hi;
    cbn [get_entropy_loop].
  - destruct (len =? 0); naive_solver.
  - destruct (len =? 0); [naive_solver|].
    destruct (get_entropy_chunk _ _ _ _ _ _) as [[[[m1 buf1] s1] ev1]|] eqn:Hc;
      [|done].
    apply (get_entropy_chunk_above _ _ _ _ _ _ _ _ _ _ i) in Hc; [|..|done].
    + intros Heq. etrans; [|done]. by eapply (IH _ _ _ _ _ _ i).
    + pose proof (u8_range len). unfold UINT8_MAX.
      destruct (255 <? len); lia.
Qed.

Lemma get_entropy_leaves_tail fuel samples m buf len o (i : nat) :
  entropy_nrf5_get_entropy fuel samples m buf len = Some o →
  255 ≤ Z.of_nat i → eo_buf o !! i = buf !! i.
Proof. intros H Hi. by apply (get_entropy_loop_above _ _ _ _ _ _ _ _ i) in H. Qed.

(** C4 on the code.  Asked for 256 bytes, the call returns success after the
    handler produced 256 bytes, but the buffer's last position is never
    written and the second chunk went over position 0: the byte [255] that
    the first chunk stored there is replaced by [77]. *)
Theorem get_entropy_256_leaves_last_byte :
  ∃ o, entropy_nrf5_get_entropy 600 blocking_256_samples blocking_256_machine
         (replicate 256 0) 256 = Some o ∧
    eo_ret o = 0 ∧
    eo_samples o = [78; 79] ∧
    eo_buf o !! 255%nat = Some 0 ∧
    eo_buf o !! 0%nat = Some 77 ∧
    take 254 (drop 1 (eo_buf o)) = reverse (seqZ 1 254).
Proof.
  eexists. split; [by vm_compute|]. cbn [eo_ret eo_samples eo_buf].
  split_and!; by vm_compute.
Qed.

(** * Further properties of the driver *)

(** ** The ring pool *)

(** X1.  What [rng_pool_put] does to a well-formed pool, in terms of the
    bytes it holds.  A pool holding [count - 1] bytes refuses the byte with
    [-ENOBUFS] and is unchanged.  Otherwise a storing [put] appends the byte
    to the pending bytes and returns [0] if that filled the last free slot
    and [-EBUSY] if room is left, and a [put] without [store] returns
    [-EBUSY] and changes nothing. *)
Theorem put_contract rng st b :
  pool_wf rng →
  let q := contents rng in
  let p := rng_pool_put rng st b in
  (Z.of_nat (length q) = count rng - 1 → p = (- ENOBUFS, rng)) ∧
  (Z.of_nat (length q) < count rng - 1 → st = false → p = (- EBUSY, rng)) ∧
  (Z.of_nat (length q) < count rng - 1 → st = true →
     contents p.2 = q ++ [b] ∧ pool_wf p.2 ∧
     p.1 = (if Z.of_nat (length q) + 1 =? count rng - 1 then 0 else - EBUSY)).
Proof.
  intros Hwf q p. subst q p. split_and!.
  - intros Hfull. apply rng_pool_put_full. by apply pool_full_iff.
  - intros Hroom ->. apply rng_pool_put_nostore.
    rewrite pool_full_iff by done. lia.
  - intros Hroom ->.
    assert (¬ pool_full rng) as Hnf by (rewrite pool_full_iff by done; lia).
    destruct (rng_pool_put_store rng b Hwf Hnf) as (-> & Hwf' & Hc).
    done.
Qed.

Lemma put_contract_witness :
  (rng_pool_put scenario_pool true 9) = (- ENOBUFS, scenario_pool).
Proof.
  apply (proj1 (put_contract scenario_pool true 9 ltac:(vm_compute; repeat split; discriminate))).
  reflexivity.
Defined.

(** X2.  [get] and [put] write disjoint parts of the pool: a [get] changes
    nothing but [first], a [put] never changes [first], [count] or
    [threshold] and leaves every slot of [rand] other than the one at [last]
    as it was.  This holds for any pool and any arguments. *)
Theorem get_and_put_write_disjoint_fields rng n buf st b :
  let g := get_rng (rng_pool_get rng n buf) in
  let p := (rng_pool_put rng st b).2 in
  (last g = last rng ∧ rand g = rand rng ∧
   count g = count rng ∧ threshold g = threshold rng) ∧
  (first p = first rng ∧ count p = count rng ∧ threshold p = threshold rng ∧
   length (rand p) = length (rand rng) ∧
   ∀ i : nat, i ≠ Z.to_nat (last rng) → rand p !! i = rand rng !! i).
Proof.
  split.
  - unfold rng_pool_get.
    split_get_branches copy_octets_length copy_octets_ptr; done.
  - unfold rng_pool_put.
    repeat match goal with
    | |- context [if ?c then _ else _] => destruct c
    end; cbn; split_and!; try done.
    all: try apply length_store.
    all: intros i Hi; unfold mem_store; case_bool_decide; [|done].
    all: by apply list_lookup_insert_ne.
Qed.

(** X3.  A request that is retried for its shortfall loses nothing: a [get]
    of [n], then the insertion of further bytes [bs], then a [get] of the
    returned shortfall into the same buffer, leaves the buffer, the final
    shortfall and the pool exactly as a single [get] of [n] would on a pool
    holding the old bytes followed by [bs]: no byte is skipped or delivered
    twice. *)
Theorem get_retry_completes rng n buf bs :
  pool_wf rng → 0 ≤ n ≤ 255 → n ≤ Z.of_nat (length buf) →
  let q := contents rng in
  let o1 := rng_pool_get rng n buf in
  Z.of_nat (length (contents (get_rng o1))) + Z.of_nat (length bs)
    ≤ count rng - 1 →
  let o2 := rng_pool_get (pool_puts bs (get_rng o1)) (get_ret o1) (get_buf o1) in
  let k := Z.min n (Z.of_nat (length (q ++ bs))) in
  get_ret o2 = n - k ∧
  get_buf o2 = take (Z.to_nat (n - k)) buf ++ reverse (take (Z.to_nat k) (q ++ bs))
                 ++ drop (Z.to_nat n) buf ∧
  contents (get_rng o2) = drop (Z.to_nat k) (q ++ bs).
Proof.
  intros Hwf Hn Hbuf q o1 Hroom o2 k.
  destruct (rng_pool_get_spec rng n buf Hwf Hn Hbuf) as (Hr1 & Hb1 & _ & Hg1 & Hq1).
  pose proof (rng_pool_get_wf rng n buf Hwf Hn Hbuf) as Hwf1.
  fold o1 in Hr1, Hb1, Hg1, Hq1, Hwf1. fold q in Hr1, Hb1, Hq1.
  assert (count (get_rng o1) = count rng) as Hc1 by (by rewrite Hg1).
  destruct (pool_puts_contents bs (get_rng o1) Hwf1) as (Hwf2 & Hq2 & _);
    [lia|].
  set (k1 := Z.min n (Z.of_nat (length q))) in *.
  assert (0 ≤ k1 ≤ n) by lia.
  assert (Z.of_nat (length (get_buf o1)) = Z.of_nat (length buf)) as Hlen1
    by (unfold o1; by rewrite rng_pool_get_length).
  destruct (rng_pool_get_spec _ (get_ret o1) (get_buf o1) Hwf2)
    as (Hr2 & Hb2 & _ & _ & Hq3); [lia..|].
  fold o2 in Hr2, Hb2, Hq3.
  rewrite Hq2, Hq1 in Hr2, Hb2, Hq3. rewrite Hr1 in Hr2, Hb2, Hq3.
  subst k. rewrite length_app in *. rewrite length_drop in *.
  destruct (Z.le_gt_cases n (Z.of_nat (length q))) as [Hle|Hgt].
  - (* satisfied at once: the second call asks for nothing *)
    assert (k1 = n) as Hk1 by lia. rewrite Hk1 in *. rewrite Z.sub_diag in *.
    rewrite Z.min_l in Hr2, Hb2, Hq3 by lia.
    rewrite (Z.min_l n) by lia.
    rewrite Hr2, Hb2, Hq3, Hb1. rewrite !Z.sub_diag.
    change (Z.to_nat 0) with 0%nat. rewrite !take_0, !drop_0, reverse_nil.
    cbn [app]. rewrite take_app_le, drop_app_le by lia. done.
  - assert (k1 = Z.of_nat (length q)) as Hk1 by lia. rewrite Hk1 in *.
    rewrite Nat2Z.id in *. rewrite drop_all in *. cbn [app length] in *.
    rewrite Nat.sub_diag in *.
    set (s := n - Z.of_nat (length q)) in *.
    set (k2 := Z.min s (Z.of_nat (0 + length bs))) in *.
    assert (Z.min n (Z.of_nat (length q + length bs)) = Z.of_nat (length q) + k2)
      as -> by lia.
    rewrite Hr2, Hb2, Hq3, Hb1.
    rewrite take_app_le by (rewrite length_take; lia).
    rewrite take_take.
    rewrite drop_app_length' by (rewrite length_take; lia).
    rewrite take_app_ge, drop_app_ge by lia.
    rewrite reverse_app, <- !app_assoc.
    rewrite (take_ge q) by lia.
    split_and!; solve_list_arith.
Qed.

Lemma get_retry_completes_witness :
  let rng := pool_puts [1; 2; 3] (rng_pool_init scenario_mem 8 2) in
  let o1 := rng_pool_get rng 5 (replicate 5 0) in
  let o2 := rng_pool_get (pool_puts [4; 5; 6] (get_rng o1)) (get_ret o1)
              (get_buf o1) in
  get_ret o2 = 0 ∧ get_buf o2 = [5; 4; 3; 2; 1] ∧
  contents (get_rng o2) = [6].
Proof.
  apply (get_retry_completes (pool_puts [1; 2; 3] (rng_pool_init scenario_mem 8 2))
           5 (replicate 5 0) [4; 5; 6]);
    vm_compute; try done; repeat split; discriminate.
Defined.

(** X4.  A [put] by the producer and a [get] by the consumer commute: when
    the pool has a free slot and the [get] asks for no more than is pending,
    doing the [put] first or the [get] first leaves the same pool and the
    same buffer, and the [get] is fully satisfied either way. *)
Theorem put_and_get_commute rng n buf b :
  pool_wf rng → 0 ≤ n ≤ 255 → n ≤ Z.of_nat (length buf) →
  n ≤ Z.of_nat (length (contents rng)) →
  Z.of_nat (length (contents rng)) < count rng - 1 →
  let get_first := rng_pool_get rng n buf in
  let put_first := rng_pool_get (rng_pool_put rng true b).2 n buf in
  get_rng put_first = (rng_pool_put (get_rng get_first) true b).2 ∧
  get_buf put_first = get_buf get_first ∧
  get_ret put_first = 0 ∧ get_ret get_first = 0.
Proof.
  intros Hwf Hn Hbuf Hpend Hroom gf pf.
  destruct (rng_pool_get_spec rng n buf Hwf Hn Hbuf) as (Hr1 & Hb1 & _ & Hg1 & Hq1).
  pose proof (rng_pool_get_wf rng n buf Hwf Hn Hbuf) as Hwf1.
  fold gf in Hr1, Hb1, Hg1, Hq1, Hwf1.
  rewrite Z.min_l in Hr1, Hb1, Hg1, Hq1 by lia.
  assert (¬ pool_full rng) as Hnf by (rewrite pool_full_iff by done; lia).
  destruct (rng_pool_put_store rng b Hwf Hnf) as (Hp & Hwfp & Hqp).
  assert (¬ pool_full (get_rng gf)) as Hnf1.
  { rewrite pool_full_iff, Hq1, length_drop by done.
    replace (count (get_rng gf)) with (count rng) by (by rewrite Hg1). lia. }
  destruct (rng_pool_put_store (get_rng gf) b Hwf1 Hnf1) as (Hp1 & _ & _).
  subst pf. rewrite Hp, Hp1. cbn [snd].
  match type of Hwfp with pool_wf ?r => set (rng' := r) in * end.
  destruct (rng_pool_get_spec rng' n buf Hwfp Hn Hbuf) as (Hr2 & Hb2 & _ & Hg2 & _).
  rewrite Hqp, length_app in Hr2, Hb2, Hg2. cbn [length] in Hr2, Hb2, Hg2.
  rewrite Z.min_l in Hr2, Hb2, Hg2 by lia.
  rewrite Hr2, Hb2, Hg2, Hr1, Hb1, Hg1.
  rewrite take_app_le by lia.
  split_and!; [|done|lia|lia].
  subst rng'. destruct rng. reflexivity.
Qed.

Lemma put_and_get_commute_witness :
  let rng := pool_puts [1; 2; 3] (rng_pool_init scenario_mem 8 2) in
  get_rng (rng_pool_get (rng_pool_put rng true 9).2 2 [0; 0])
  = (rng_pool_put (get_rng (rng_pool_get rng 2 [0; 0])) true 9).2.
Proof.
  apply (put_and_get_commute (pool_puts [1; 2; 3] (rng_pool_init scenario_mem 8 2))
           2 [0; 0] 9);
    vm_compute; try done; repeat split; discriminate.
Defined.

(** ** Sampling and the interrupt handler *)

(** Helper forms of the [put] facts, by the number of free slots. *)
Lemma rng_pool_put_by_room rng st b :
  pool_wf rng →
  let q := contents rng in
  let p := rng_pool_put rng st b in
  count p.2 = count rng ∧
  (Z.of_nat (length q) = count rng - 1 → p = (- ENOBUFS, rng)) ∧
  (Z.of_nat (length q) < count rng - 1 → st = false → p = (- EBUSY, rng)) ∧
  (Z.of_nat (length q) < count rng - 1 → st = true →
     contents p.2 = q ++ [b] ∧ pool_wf p.2 ∧
     p.1 = (if Z.of_nat (length q) + 1 =? count rng - 1 then 0 else - EBUSY)).
Proof.
  intros Hwf q p. subst q p. split_and!.
  - unfold rng_pool_put. repeat case_match; done.
  - intros Hfull. apply rng_pool_put_full. by apply pool_full_iff.
  - intros Hroom ->. apply rng_pool_put_nostore.
    rewrite pool_full_iff by done. lia.
  - intros Hroom ->.
    assert (¬ pool_full rng) as Hnf by (rewrite pool_full_iff by done; lia).
    destruct (rng_pool_put_store rng b Hwf Hnf) as (-> & Hwf' & Hc).
    done.
Qed.

Local Ltac isr_fin :=
  first [ done | lia
        | intros; first [ lia | split_and!; first [ done | lia ] ] ].

(** One run of the handler on well-formed pools with a byte ready, in terms
    of the bytes the pools hold. *)
Lemma isr_step m :
  pool_wf (isr_pool (dev m)) → pool_wf (thr_pool (dev m)) →
  EVENTS_VALRDY (hw m) = true →
  let b := u8 (VALUE (hw m)) in
  let o := isr m in
  let pi := isr_pool (dev m) in
  let pt := thr_pool (dev m) in
  let pi' := isr_pool (dev (isr_machine o)) in
  let pt' := thr_pool (dev (isr_machine o)) in
  let free_i := count pi - 1 - Z.of_nat (length (contents pi)) in
  let free_t := count pt - 1 - Z.of_nat (length (contents pt)) in
  pool_wf pi' ∧ pool_wf pt' ∧
  count pi' = count pi ∧ count pt' = count pt ∧
  sem_lock (dev (isr_machine o)) = sem_lock (dev m) ∧
  irq_enabled (isr_machine o) = irq_enabled m ∧
  hw (isr_machine o) = NrfRng false (VALUE (hw m)) ∧
  isr_sampled o = true ∧
  (0 < free_i →
     contents pi' = contents pi ++ [b] ∧ pt' = pt ∧
     isr_events o =
       (if free_i =? 1 then
          EvGive SEM_SYNC ::
            (if free_t =? 0 then [EvTask NRF_RNG_TASK_STOP] else [])
        else [])) ∧
  (free_i = 0 → 0 < free_t →
     pi' = pi ∧ contents pt' = contents pt ++ [b] ∧
     isr_events o =
       EvGive SEM_SYNC ::
         (if free_t =? 1 then [EvTask NRF_RNG_TASK_STOP] else [])) ∧
  (free_i = 0 → free_t = 0 →
     pi' = pi ∧ pt' = pt ∧
     isr_events o = [EvGive SEM_SYNC; EvTask NRF_RNG_TASK_STOP]).
Proof.
  intros Hwi Hwt Hs b o pi pt pi' pt' free_i free_t.
  pose proof (length_contents_bound _ Hwi) as Hbi.
  pose proof (length_contents_bound _ Hwt) as Hbt.
  fold pi in Hbi, Hwi. fold pt in Hbt, Hwt.
  assert (free_i = count pi - 1 - Z.of_nat (length (contents pi))) as Hdi
    by reflexivity.
  assert (free_t = count pt - 1 - Z.of_nat (length (contents pt))) as Hdt
    by reflexivity.
  clearbody free_i free_t.
  subst o pi' pt'. rewrite (isr_ready m Hs). cbn zeta. fold b pi pt.
  pose proof (rng_pool_put_by_room pi true b Hwi) as (Hc & Pf & _ & Ps).
  destruct (decide (0 < free_i)) as [Hfi|Hfi].
  - (* the ISR tier takes the byte *)
    destruct Ps as (Hq & Hw & Hr); [lia|done|].
    rewrite Hr.
    destruct (Z.eqb_spec (Z.of_nat (length (contents pi)) + 1) (count pi - 1))
      as [E|E].
    + (* and is full now: the thread tier is probed without storing *)
      change (0 =? - EBUSY) with false. change (0 =? - ENOBUFS) with false.
      cbn [isr_machine dev isr_pool thr_pool sem_lock irq_enabled hw
           isr_sampled isr_events app].
      pose proof (rng_pool_put_by_room pt false b Hwt) as (_ & Qf & Qn & _).
      destruct (decide (free_t = 0)) as [Ht|Ht].
      * rewrite Qf by lia. cbn [fst snd].
        change (- ENOBUFS =? - EBUSY) with false. cbn [negb].
        destruct (Z.eqb_spec free_i 1); [|lia].
        destruct (Z.eqb_spec free_t 0); [|lia].
        split_and!; isr_fin.
      * rewrite Qn by (done || lia). cbn [fst snd].
        rewrite Z.eqb_refl. cbn [negb].
        destruct (Z.eqb_spec free_i 1); [|lia].
        destruct (Z.eqb_spec free_t 0); [lia|].
        split_and!; isr_fin.
    + change (- EBUSY =? - EBUSY) with true.
      cbn [isr_machine dev isr_pool thr_pool sem_lock irq_enabled hw
           isr_sampled isr_events].
      destruct (Z.eqb_spec free_i 1); [lia|].
      split_and!; isr_fin.
  - (* the ISR tier is full: the byte goes to the thread tier *)
    rewrite Pf by lia. cbn [fst snd].
    change (- ENOBUFS =? - EBUSY) with false.
    change (- ENOBUFS =? - ENOBUFS) with true.
    cbn [isr_machine dev isr_pool thr_pool sem_lock irq_enabled hw
         isr_sampled isr_events app].
    pose proof (rng_pool_put_by_room pt true b Hwt) as (Hct & Qf & _ & Qs).
    destruct (decide (0 < free_t)) as [Hft|Hft].
    + destruct Qs as (Hq & Hw & Hr); [lia|done|].
      rewrite Hr.
      destruct (Z.eqb_spec (Z.of_nat (length (contents pt)) + 1) (count pt - 1)),
        (Z.eqb_spec free_t 1); try lia; cbn; split_and!; isr_fin.
    + rewrite Qf by lia. cbn [fst snd negb].
      change (- ENOBUFS =? - EBUSY) with false. cbn [negb].
      split_and!; isr_fin.
Qed.

(** X6.  Every sampled byte goes to exactly one tier, the ISR tier first: if
    the ISR-tier pool has a free slot the byte is appended there and the
    thread tier is untouched; if the ISR tier is full and the thread tier
    has a free slot the byte is appended to the thread tier; only when both
    are full is the byte dropped, and then STOP is triggered.  The handler
    keeps both pools well formed and never touches the gate semaphore or the
    interrupt enable. *)
Theorem isr_stores_byte_in_one_tier m :
  pool_wf (isr_pool (dev m)) → pool_wf (thr_pool (dev m)) →
  EVENTS_VALRDY (hw m) = true →
  let b := u8 (VALUE (hw m)) in
  let m' := isr_machine (isr m) in
  let qi := contents (isr_pool (dev m)) in
  let qt := contents (thr_pool (dev m)) in
  let qi' := contents (isr_pool (dev m')) in
  let qt' := contents (thr_pool (dev m')) in
  let full_i := Z.of_nat (length qi) = count (isr_pool (dev m)) - 1 in
  let full_t := Z.of_nat (length qt) = count (thr_pool (dev m)) - 1 in
  pool_wf (isr_pool (dev m')) ∧ pool_wf (thr_pool (dev m')) ∧
  sem_lock (dev m') = sem_lock (dev m) ∧ irq_enabled m' = irq_enabled m ∧
  (¬ full_i → qi' = qi ++ [b] ∧ qt' = qt) ∧
  (full_i → ¬ full_t → qi' = qi ∧ qt' = qt ++ [b]) ∧
  (full_i → full_t →
     qi' = qi ∧ qt' = qt ∧ EvTask NRF_RNG_TASK_STOP ∈ isr_events (isr m)).
Proof.
  intros Hwi Hwt Hs b m' qi qt qi' qt' full_i full_t.
  pose proof (length_contents_bound _ Hwi) as Hbi.
  pose proof (length_contents_bound _ Hwt) as Hbt.
  destruct (isr_step m Hwi Hwt Hs)
    as (Hwi' & Hwt' & _ & _ & Hl & Hirq & _ & _ & H1 & H2 & H3).
  subst full_i full_t qi qt qi' qt' m'.
  split_and!; try done.
  - intros Hn. destruct H1 as (-> & -> & _); [lia|done].
  - intros Hf Hn. destruct H2 as (-> & -> & _); [lia..|done].
  - intros Hf Hf'. destruct H3 as (-> & -> & ->); [lia..|].
    split_and!; try done. rewrite !elem_of_cons. auto.
Qed.

Lemma isr_stores_byte_in_one_tier_witness :
  contents (thr_pool (dev (isr_machine (isr isr_tier_full)))) = [] ++ [66].
Proof.
  refine (proj2 (proj1 (proj2 (proj2 (proj2 (proj2 (proj2
    (isr_stores_byte_in_one_tier isr_tier_full _ _ _)))))) _ _));
    vm_compute; try done; repeat split; discriminate.
Defined.

Lemma irq_run_cons b bs m :
  irq_run (b :: bs) m
  = ((irq_run bs (irq_fire b m).1).1,
     (irq_fire b m).2 ++ (irq_run bs (irq_fire b m).1).2).
Proof.
  cbn [irq_run]. destruct (irq_fire b m) as [m1 ev].
  cbn [fst snd]. by destruct (irq_run bs m1).
Qed.

Lemma irq_fire_enabled b m :
  irq_enabled m = true →
  let m0 := Machine (dev m) (NrfRng true b) true in
  irq_fire b m = (isr_machine (isr m0), isr_events (isr m0)).
Proof. intros H. unfold irq_fire. by rewrite H. Qed.

(** The handler run over a series of generated bytes, while the two pools
    still have room for all of them. *)
Lemma irq_run_fill bs : ∀ m,
  pool_wf (isr_pool (dev m)) → pool_wf (thr_pool (dev m)) →
  irq_enabled m = true →
  let pi := isr_pool (dev m) in
  let pt := thr_pool (dev m) in
  let free_i := count pi - 1 - Z.of_nat (length (contents pi)) in
  let free_t := count pt - 1 - Z.of_nat (length (contents pt)) in
  Z.of_nat (length bs) ≤ free_i + free_t →
  let m' := (irq_run bs m).1 in
  pool_wf (isr_pool (dev m')) ∧ pool_wf (thr_pool (dev m')) ∧
  count (isr_pool (dev m')) = count pi ∧ count (thr_pool (dev m')) = count pt ∧
  sem_lock (dev m') = sem_lock (dev m) ∧ irq_enabled m' = true ∧
  contents (isr_pool (dev m'))
    = contents pi ++ take (Z.to_nat free_i) (u8 <$> bs) ∧
  contents (thr_pool (dev m'))
    = contents pt ++ drop (Z.to_nat free_i) (u8 <$> bs) ∧
  (EvTask NRF_RNG_TASK_STOP ∈ (irq_run bs m).2 ↔
     bs ≠ [] ∧ Z.of_nat (length bs) = free_i + free_t).
Proof.
  induction bs as [|b bs IH]; intros m Hwi Hwt Hirq pi pt free_i free_t Hlen m'.
  - subst m'. cbn [irq_run fst snd fmap list_fmap].
    rewrite take_nil, drop_nil, !app_nil_r, elem_of_nil.
    split_and!; try done. intuition.
  - subst m'. rewrite irq_run_cons, (irq_fire_enabled b m Hirq).
    cbn [fst snd]. cbv zeta.
    set (m0 := Machine (dev m) (NrfRng true b) true).
    pose proof (length_contents_bound _ Hwi) as Hbi.
    pose proof (length_contents_bound _ Hwt) as Hbt.
    destruct (isr_step m0 Hwi Hwt eq_refl)
      as (Hwi' & Hwt' & Hci & Hct & Hl & Hirq' & _ & _ & H1 & H2 & H3).
    cbn [length] in Hlen.
    set (m1 := isr_machine (isr m0)) in *.
    change (dev m0) with (dev m) in *. change (irq_enabled m0) with true in *.
    change (VALUE (hw m0)) with b in *.
    fold pi pt in Hwi, Hwt, Hbi, Hbt, Hci, Hct, H1, H2, H3.
    assert (free_i = count pi - 1 - Z.of_nat (length (contents pi))) as Hdi
      by reflexivity.
    assert (free_t = count pt - 1 - Z.of_nat (length (contents pt))) as Hdt
      by reflexivity.
    clearbody free_i free_t.
    rewrite <- ?Hdi, <- ?Hdt in H1, H2, H3.
    specialize (IH m1 Hwi' Hwt' ltac:(congruence)). cbn zeta in IH.
    destruct (irq_run bs m1) as [m2 ev2] eqn:Hrun. cbn [fst snd] in *.
    rewrite Hci, Hct in IH.
    rewrite elem_of_app.
    cbn [fmap list_fmap]. change (list_fmap Z Z u8 bs) with (u8 <$> bs).
    destruct (decide (0 < free_i)) as [Hfi|Hfi].
    + destruct H1 as (Hq & Hpt & Hev); [lia|].
      rewrite Hq, Hpt, length_app in IH. cbn [length] in IH.
      destruct IH as (? & ? & ? & ? & ? & ? & Hqi & Hqt & Hstop); [lia|].
      rewrite Hqi, Hqt, Hstop, Hev.
      replace (Z.to_nat free_i) with (S (Z.to_nat (free_i - 1))) by lia.
      replace (count pi - 1 - Z.of_nat (length (contents pi) + 1))
        with (free_i - 1) by lia.
      cbn [take drop]. rewrite <- app_assoc. cbn [app].
      split_and!; try done; try congruence.
      destruct (Z.eqb_spec free_i 1), (Z.eqb_spec free_t 0);
        rewrite ?elem_of_cons, ?elem_of_nil.
      all: destruct bs; cbn [length] in *; split; intros; try lia;
        intuition (try done; try congruence; try lia).
    + assert (free_i = 0) as Hi0 by lia.
      destruct (decide (0 < free_t)) as [Hft|Hft]; [|lia].
      destruct H2 as (Hpi & Hq & Hev); [lia..|].
      rewrite Hq, Hpi, length_app in IH. cbn [length] in IH.
      destruct IH as (? & ? & ? & ? & ? & ? & Hqi & Hqt & Hstop); [lia|].
      rewrite Hqi, Hqt, Hstop, Hev.
      replace (count pi - 1 - Z.of_nat (length (contents pi))) with 0 by lia.
      rewrite Hi0. change (Z.to_nat 0) with 0%nat.
      rewrite !take_0, !drop_0, <- app_assoc. cbn [app].
      split_and!; try done; try congruence.
      destruct (Z.eqb_spec free_t 1);
        rewrite ?elem_of_cons, ?elem_of_nil.
      all: destruct bs; cbn [length] in *; split; intros; try lia;
        intuition (try done; try congruence; try lia).
Qed.

(** X7.  Filling up after boot.  From the state [entropy_nrf5_init] leaves,
    the handler stores the first [ISR_BUF_LEN] generated bytes in the ISR
    tier and the next [THR_BUF_LEN] in the thread tier, in order and without
    loss, and it triggers STOP on exactly the byte that fills the last free
    slot: not before, whatever prefix of the stream has been handled. *)
Theorem boot_fills_isr_tier_then_thread_tier cfg isr_mem thr_mem h bs :
  let ni := CONFIG_ENTROPY_NRF5_ISR_BUF_LEN cfg in
  let nt := CONFIG_ENTROPY_NRF5_THR_BUF_LEN cfg in
  1 ≤ ni ≤ 254 → 1 ≤ nt ≤ 254 →
  Z.of_nat (length isr_mem) = ni + 1 → Z.of_nat (length thr_mem) = nt + 1 →
  Z.of_nat (length bs) ≤ ni + nt →
  let m0 := init_machine (entropy_nrf5_init cfg isr_mem thr_mem h) in
  let r := irq_run bs m0 in
  contents (isr_pool (dev r.1)) = take (Z.to_nat ni) (u8 <$> bs) ∧
  contents (thr_pool (dev r.1)) = drop (Z.to_nat ni) (u8 <$> bs) ∧
  (EvTask NRF_RNG_TASK_STOP ∈ r.2 ↔ Z.of_nat (length bs) = ni + nt).
Proof.
  intros ni nt Hni Hnt Hmi Hmt Hbs m0 r.
  assert (pool_wf (isr_pool (dev m0))) as Hwi.
  { cbn. unfold RNG_POOL_ISR_LEN. fold ni. rewrite u8_small by lia.
    apply fresh_wf; lia. }
  assert (pool_wf (thr_pool (dev m0))) as Hwt.
  { cbn. unfold RNG_POOL_THR_LEN. fold nt. rewrite u8_small by lia.
    apply fresh_wf; lia. }
  assert (count (isr_pool (dev m0)) = ni + 1) as Eci
    by (cbn; unfold RNG_POOL_ISR_LEN; fold ni; apply u8_small; lia).
  assert (count (thr_pool (dev m0)) = nt + 1) as Ect
    by (cbn; unfold RNG_POOL_THR_LEN; fold nt; apply u8_small; lia).
  assert (contents (isr_pool (dev m0)) = []) as Eqi by apply fresh_contents.
  assert (contents (thr_pool (dev m0)) = []) as Eqt by apply fresh_contents.
  pose proof (irq_run_fill bs m0 Hwi Hwt eq_refl) as H. cbv zeta in H.
  rewrite Eci, Ect, Eqi, Eqt in H. cbn [length app] in H.
  change (Z.of_nat 0) with 0 in H.
  replace (ni + 1 - 1 - 0) with ni in H by lia.
  replace (nt + 1 - 1 - 0) with nt in H by lia.
  destruct H as (_ & _ & _ & _ & _ & _ & Hqi & Hqt & Hstop); [lia|].
  fold r in Hqi, Hqt, Hstop.
  split_and!; [done..|].
  rewrite Hstop. split; [tauto|]. intros E. split; [|done].
  intros ->. cbn in E. lia.
Qed.

Lemma boot_fills_isr_tier_then_thread_tier_witness :
  let r := irq_run [1; 2; 3; 4; 5; 6; 7] small_boot in
  contents (isr_pool (dev r.1)) = take (Z.to_nat 3) (u8 <$> [1; 2; 3; 4; 5; 6; 7]) ∧
  contents (thr_pool (dev r.1)) = drop (Z.to_nat 3) (u8 <$> [1; 2; 3; 4; 5; 6; 7]) ∧
  (EvTask NRF_RNG_TASK_STOP ∈ r.2 ↔ Z.of_nat 7 = 3 + 4).
Proof.
  apply (boot_fills_isr_tier_then_thread_tier small_config (replicate 4 0)
           (replicate 5 0) (NrfRng false 0) [1; 2; 3; 4; 5; 6; 7]);
    vm_compute; try done; repeat split; discriminate.
Defined.

(** X8.  Once both tiers are full nothing gets in any more: every further
    generated byte leaves both pools exactly as they are, and each
    invocation gives the wake and triggers STOP again. *)
Theorem saturated_pools_drop_every_byte bs : ∀ m,
  pool_wf (isr_pool (dev m)) → pool_wf (thr_pool (dev m)) →
  (last (isr_pool (dev m)) + 1) mod count (isr_pool (dev m))
    = first (isr_pool (dev m)) →
  (last (thr_pool (dev m)) + 1) mod count (thr_pool (dev m))
    = first (thr_pool (dev m)) →
  irq_enabled m = true →
  let r := irq_run bs m in
  isr_pool (dev r.1) = isr_pool (dev m) ∧
  thr_pool (dev r.1) = thr_pool (dev m) ∧
  r.2 = bs ≫= (λ _, [EvGive SEM_SYNC; EvTask NRF_RNG_TASK_STOP]).
Proof.
  induction bs as [|b bs IH]; intros m Hwi Hwt Hfi Hft Hirq r; [done|].
  subst r. rewrite irq_run_cons, (irq_fire_enabled b m Hirq).
  cbn [fst snd]. cbv zeta.
  set (m0 := Machine (dev m) (NrfRng true b) true).
  assert (pool_full (isr_pool (dev m))) as Hfi'
    by (unfold pool_full; by rewrite next_index_wf).
  assert (pool_full (thr_pool (dev m))) as Hft'
    by (unfold pool_full; by rewrite next_index_wf).
  apply pool_full_iff in Hfi'; [|done]. apply pool_full_iff in Hft'; [|done].
  destruct (isr_step m0 Hwi Hwt eq_refl)
    as (_ & _ & _ & _ & _ & Hirq' & _ & _ & _ & _ & H3).
  change (dev m0) with (dev m) in *.
  destruct H3 as (Hpi & Hpt & Hev); [lia..|].
  set (m1 := isr_machine (isr m0)) in *.
  change (irq_enabled m0) with true in Hirq'.
  destruct (IH m1) as (Hi & Ht & Hevs); [by rewrite ?Hpi, ?Hpt..|].
  rewrite Hi, Ht, Hevs, Hpi, Hpt, Hev. done.
Qed.

Lemma saturated_pools_drop_every_byte_witness :
  (irq_run [7; 8] both_tiers_full).2
  = [7; 8] ≫= (λ _, [EvGive SEM_SYNC; EvTask NRF_RNG_TASK_STOP]).
Proof.
  refine (proj2 (proj2 (saturated_pools_drop_every_byte [7; 8] both_tiers_full
            _ _ _ _ _)));
    vm_compute; try done; repeat split; discriminate.
Defined.

(** ** The consumer entry points *)

(** The busy-wait loop reads one generated byte per iteration and stores it
    below the previous one. *)
Lemma busywait_loop_spec bs : ∀ b fuel h buf rest,
  EVENTS_VALRDY h = false →
  let len := Z.of_nat (length (b :: bs)) in
  len < 65536 → len ≤ Z.of_nat (length buf) → (length (b :: bs) ≤ fuel)%nat →
  ∃ h', busywait_loop fuel ((b :: bs) ++ rest) h buf len
        = Some (h', reverse (u8 <$> (b :: bs)) ++ drop (Z.to_nat len) buf, rest) ∧
        EVENTS_VALRDY h' = false.
Proof.
  induction bs as [|b' bs IH]; intros b fuel h buf rest Hh len Hlen Hbuf Hfuel;
    (destruct fuel as [|fuel]; [cbn in Hfuel; lia|]);
    cbn [busywait_loop app]; rewrite Hh; unfold random_byte_get;
    cbn [EVENTS_VALRDY VALUE];
    pose proof (u8_range b) as Hb;
    (destruct (Z.ltb_spec (u8 b) 0); [lia|]);
    rewrite (u8_small (u8 b)) by lia.
  - subst len. change (Z.of_nat (length [b])) with 1 in *.
    change (u16 (1 - 1)) with 0. cbn [Z.eqb negb].
    exists (NrfRng false b). split; [|done].
    destruct buf as [|x buf]; [cbn in Hbuf; lia|]. reflexivity.
  - subst len. cbn [length] in *.
    replace (u16 (Z.of_nat (S (S (length bs))) - 1))
      with (Z.of_nat (S (length bs)))
      by (unfold u16; rewrite Z.mod_small; lia).
    destruct (Z.eqb_spec (Z.of_nat (S (length bs))) 0); [lia|]. cbn [negb].
    destruct (IH b' fuel (NrfRng false b)
                (mem_store buf (Z.of_nat (S (length bs))) (u8 b)) rest)
      as (h' & Hrun & Hh'); [done|cbn [length]; lia|
                              rewrite length_store; cbn [length]; lia|
                              cbn [length]; lia|].
    cbn [app length] in Hrun. rewrite Hrun.
    exists h'. split; [|done]. do 2 f_equal.
    rewrite store_nat, !Nat2Z.id.
    destruct (lookup_lt_is_Some_2 buf (S (length bs))) as [y Hy]; [lia|].
    rewrite drop_insert_ge, Nat.sub_diag by lia.
    rewrite (drop_S buf y (S (length bs))) by done.
    cbn [insert list_insert fmap list_fmap].
    rewrite (reverse_cons _ (u8 b)), <- app_assoc. done.
Qed.

(** X9.  With the busy-wait flag, [entropy_nrf5_get_entropy_isr] delivers
    the whole request from the hardware: given [len] more generated bytes
    it returns [len], having consumed exactly those bytes and stored them in
    buffer positions [len-1] down to [0]; the rest of the buffer, both pools
    and both semaphores are untouched and the interrupt line is enabled or
    disabled as it was before the call.  START is triggered unless [len] is
    0, in which case the call does nothing at all. *)
Theorem busywait_delivers_everything fuel bs rest m buf flags :
  let len := Z.of_nat (length bs) in
  Z.land flags ENTROPY_BUSYWAIT ≠ 0 →
  len < 65536 → len ≤ Z.of_nat (length buf) → (length bs ≤ fuel)%nat →
  ∃ o, entropy_nrf5_get_entropy_isr fuel (bs ++ rest) m buf len flags = Some o ∧
    eo_ret o = len ∧
    eo_buf o = reverse (u8 <$> bs) ++ drop (Z.to_nat len) buf ∧
    eo_samples o = rest ∧
    dev (eo_machine o) = dev m ∧
    irq_enabled (eo_machine o) = irq_enabled m ∧
    eo_events o = (if len =? 0 then [] else [EvTask NRF_RNG_TASK_START]).
Proof.
  intros len Hfl Hlen Hbuf Hfuel. unfold entropy_nrf5_get_entropy_isr.
  destruct (Z.eqb_spec (Z.land flags ENTROPY_BUSYWAIT) 0) as [|_]; [done|].
  destruct bs as [|b bs].
  - subst len. cbn. eexists; split; [done|]. done.
  - destruct (Z.eqb_spec len 0) as [E|_]; [subst len; cbn in E; lia|].
    cbn [negb].
    destruct (busywait_loop_spec bs b fuel (NrfRng false (VALUE (hw m))) buf rest)
      as (h' & Hrun & _); [done..|].
    fold len in Hrun. rewrite Hrun.
    eexists; split; [done|]. done.
Qed.

Lemma busywait_delivers_everything_witness :
  ∃ o, entropy_nrf5_get_entropy_isr 3 ([7; 8; 9] ++ [10]) isr_tier_three
         [0; 0; 0; 0] (Z.of_nat (length [7; 8; 9])) ENTROPY_BUSYWAIT = Some o ∧
       eo_buf o = [9; 8; 7; 0].
Proof.
  destruct (busywait_delivers_everything 3 [7; 8; 9] [10] isr_tier_three
              [0; 0; 0; 0] ENTROPY_BUSYWAIT) as (o & Ho & _ & Hb & _).
  - vm_compute. discriminate.
  - vm_compute. reflexivity.
  - vm_compute. discriminate.
  - vm_compute. repeat constructor.
  - exists o. split; [exact Ho|exact Hb].
Defined.

(** Small steps of the blocking path. *)
Lemma get_entropy_chunk_done fuel samples m buf evs :
  get_entropy_chunk fuel samples m 0 buf evs = Some (m, buf, samples, evs).
Proof. by destruct fuel. Qed.

Lemma get_entropy_loop_done fuel ifuel samples m buf evs :
  get_entropy_loop fuel ifuel samples m 0 buf evs
  = Some (EntropyOut 0 m buf samples evs).
Proof. by destruct fuel. Qed.

Lemma k_sem_take_sync_ready samples m :
  0 < sem_count (sem_sync (dev m)) →
  k_sem_take_sync samples m
  = Some (Machine (set_sem_sync (dev m)
                     (KSem (sem_count (sem_sync (dev m)) - 1)
                           (sem_limit (sem_sync (dev m)))))
                  (hw m) (irq_enabled m),
          samples, [EvTake SEM_SYNC]).
Proof.
  intros H. destruct samples; cbn [k_sem_take_sync]; unfold k_sem_try_take;
    destruct (Z.ltb_spec 0 (sem_count (sem_sync (dev m)))); done || lia.
Qed.

(** With the ISR tier full the handler always gives the wake. *)
Lemma isr_full_gives_sync m :
  pool_wf (isr_pool (dev m)) →
  Z.of_nat (length (contents (isr_pool (dev m))))
    = count (isr_pool (dev m)) - 1 →
  EVENTS_VALRDY (hw m) = true →
  sem_sync (dev (isr_machine (isr m))) = k_sem_give (sem_sync (dev m)).
Proof.
  intros Hwi Hfull Hs. rewrite (isr_ready m Hs). cbn zeta.
  rewrite rng_pool_put_full by (by apply pool_full_iff). cbn [fst].
  change (- ENOBUFS =? - EBUSY) with false. done.
Qed.

Lemma get_entropy_chunk_step fuel samples m len8 buf evs :
  len8 ≠ 0 → 0 < sem_count (sem_lock (dev m)) →
  get_entropy_chunk (S fuel) samples m len8 buf evs =
    let lk := KSem (sem_count (sem_lock (dev m)) - 1)
                   (sem_limit (sem_lock (dev m))) in
    let o := rng_pool_get (thr_pool (dev m)) len8 buf in
    let dd := set_pools (dev m) (isr_pool (dev m)) (get_rng o) in
    let m1 := Machine (set_sem_lock dd (k_sem_give lk)) (hw m) (irq_enabled m) in
    let evs1 := evs ++ [EvTake SEM_LOCK] ++ map EvTask (get_tasks o)
                    ++ [EvGive SEM_LOCK] in
    if negb (get_ret o =? 0) then
      match k_sem_take_sync samples m1 with
      | None => None
      | Some (m2, samples', ev2) =>
          get_entropy_chunk fuel samples' m2 (get_ret o) (get_buf o)
            (evs1 ++ ev2)
      end
    else get_entropy_chunk fuel samples m1 (get_ret o) (get_buf o) evs1.
Proof.
  intros Hlen Hlock. cbn [get_entropy_chunk].
  destruct (Z.eqb_spec len8 0); [done|].
  unfold k_sem_try_take.
  destruct (Z.ltb_spec 0 (sem_count (sem_lock (dev m)))); [done|lia].
Qed.

(** The semaphore operations of a trace. *)
Lemma sem_ops_app evs1 evs2 : sem_ops (evs1 ++ evs2) = sem_ops evs1 ++ sem_ops evs2.
Proof. apply filter_app. Qed.

Lemma sem_ops_cons_sem e evs :
  is_sem_op e = true → sem_ops (e :: evs) = e :: sem_ops evs.
Proof. intros H. unfold sem_ops. by rewrite filter_cons_True. Qed.

Lemma sem_ops_tasks ts : sem_ops (map EvTask ts) = [].
Proof.
  induction ts as [|t ts IH]; [done|]. cbn [map]. unfold sem_ops in *.
  by rewrite filter_cons_False.
Qed.

(** Sleeping on the wake signal while the ISR tier is full: the next
    generated byte lands in the thread tier and wakes the caller. *)
Lemma k_sem_take_sync_sleep b samples m :
  pool_wf (isr_pool (dev m)) →
  Z.of_nat (length (contents (isr_pool (dev m))))
    = count (isr_pool (dev m)) - 1 →
  pool_wf (thr_pool (dev m)) →
  Z.of_nat (length (contents (thr_pool (dev m))))
    < count (thr_pool (dev m)) - 1 →
  irq_enabled m = true →
  sem_count (sem_sync (dev m)) = 0 → 1 ≤ sem_limit (sem_sync (dev m)) →
  ∃ m' ev, k_sem_take_sync (b :: samples) m = Some (m', samples, ev) ∧
    isr_pool (dev m') = isr_pool (dev m) ∧
    contents (thr_pool (dev m')) = contents (thr_pool (dev m)) ++ [u8 b] ∧
    pool_wf (thr_pool (dev m')) ∧
    count (thr_pool (dev m')) = count (thr_pool (dev m)) ∧
    sem_lock (dev m') = sem_lock (dev m) ∧
    sem_count (sem_sync (dev m')) = 0 ∧
    sem_limit (sem_sync (dev m')) = sem_limit (sem_sync (dev m)) ∧
    irq_enabled m' = true ∧
    sem_ops ev = [EvGive SEM_SYNC; EvTake SEM_SYNC].
Proof.
  intros Hwi Hfi Hwt Hft Hirq Hs0 HsL.
  cbn [k_sem_take_sync]. unfold k_sem_try_take at 1. rewrite Hs0.
  change (0 <? 0) with false. cbv iota.
  rewrite (irq_fire_enabled b m Hirq). cbv zeta.
  set (m0 := Machine (dev m) (NrfRng true b) true).
  destruct (isr_step m0 Hwi Hwt eq_refl)
    as (_ & Hwt' & _ & Hct & Hl & Hirq' & _ & _ & _ & H2 & _).
  pose proof (isr_full_gives_sync m0 Hwi Hfi eq_refl) as Hsync.
  change (dev m0) with (dev m) in *. change (irq_enabled m0) with true in *.
  change (VALUE (hw m0)) with b in *.
  destruct H2 as (Hpi & Hq & Hev); [lia..|].
  set (m1 := isr_machine (isr m0)) in *.
  assert (sem_sync (dev m1) = KSem 1 (sem_limit (sem_sync (dev m)))) as Hs1.
  { rewrite Hsync. unfold k_sem_give. rewrite Hs0.
    destruct (Z.ltb_spec 0 (sem_limit (sem_sync (dev m)))); [done|lia]. }
  rewrite k_sem_take_sync_ready by (rewrite Hs1; cbn; lia).
  rewrite Hs1. cbn [sem_count sem_limit].
  eexists _, _. split; [reflexivity|].
  cbn [dev set_sem_sync isr_pool thr_pool sem_lock sem_sync sem_count
       sem_limit irq_enabled].
  split_and!; try done.
  rewrite Hev. by destruct (_ =? 1).
Qed.

(** The inner loop of the blocking call, with the ISR tier full: the pending
    thread-tier bytes are taken first, then one generated byte per wake. *)
Lemma get_entropy_chunk_live bs : ∀ fuel m len8 buf evs rest,
  pool_wf (isr_pool (dev m)) →
  Z.of_nat (length (contents (isr_pool (dev m))))
    = count (isr_pool (dev m)) - 1 →
  pool_wf (thr_pool (dev m)) → 2 ≤ count (thr_pool (dev m)) →
  irq_enabled m = true →
  sem_count (sem_sync (dev m)) = 0 → 1 ≤ sem_limit (sem_sync (dev m)) →
  0 < sem_count (sem_lock (dev m)) ≤ sem_limit (sem_lock (dev m)) →
  0 ≤ len8 ≤ 255 → len8 ≤ Z.of_nat (length buf) →
  Z.of_nat (length bs)
    = len8 - Z.min len8 (Z.of_nat (length (contents (thr_pool (dev m))))) →
  (length bs < fuel)%nat →
  let stream := contents (thr_pool (dev m)) ++ (u8 <$> bs) in
  ∃ m' evs',
    get_entropy_chunk fuel (bs ++ rest) m len8 buf evs
    = Some (m', reverse (take (Z.to_nat len8) stream)
                  ++ drop (Z.to_nat len8) buf, rest, evs') ∧
    contents (thr_pool (dev m')) = drop (Z.to_nat len8) stream ∧
    pool_wf (thr_pool (dev m')) ∧
    isr_pool (dev m') = isr_pool (dev m) ∧
    sem_lock (dev m') = sem_lock (dev m) ∧
    sem_count (sem_sync (dev m')) = 0 ∧
    irq_enabled m' = true ∧
    ∃ new, evs' = evs ++ new ∧
      sem_ops new = (if len8 =? 0 then [] else read_under_gate)
                      ++ concat (replicate (length bs) wake_up).
Proof.
  induction bs as [|b bs IH];
    intros fuel m len8 buf evs rest Hwi Hfi Hwt Hct Hirq Hs0 HsL Hlk Hlen Hbuf
      Hbs Hfuel stream;
    (destruct fuel as [|fuel]; [lia|]).
  - (* enough is pending: no sleep *)
    cbn [length] in Hbs. subst stream. cbn [fmap list_fmap app]. rewrite app_nil_r.
    destruct (Z.eq_dec len8 0) as [->|Hnz].
    + rewrite get_entropy_chunk_done. change (Z.to_nat 0) with 0%nat.
      rewrite take_0, drop_0. eexists _, _. split; [reflexivity|].
      rewrite drop_0. split_and!; try done.
      exists []. by rewrite app_nil_r.
    + rewrite get_entropy_chunk_step by lia. cbv zeta.
      destruct (rng_pool_get_spec _ len8 buf Hwt Hlen Hbuf)
        as (Hr & Hb & _ & _ & Hq).
      pose proof (rng_pool_get_wf _ len8 buf Hwt Hlen Hbuf) as Hwt'.
      rewrite Z.min_l in Hr, Hb, Hq by lia. rewrite Z.sub_diag in Hr, Hb.
      rewrite Hr. change (negb (0 =? 0)) with false. cbv iota.
      rewrite get_entropy_chunk_done, Hb.
      change (Z.to_nat 0) with 0%nat. rewrite take_0. cbn [app].
      eexists _, _. split; [reflexivity|].
      cbn [dev set_sem_lock set_pools isr_pool thr_pool sem_lock sem_sync
           irq_enabled].
      split_and!; try done.
      * unfold k_sem_give. cbn [sem_count sem_limit].
        destruct (Z.ltb_spec (sem_count (sem_lock (dev m)) - 1)
                    (sem_limit (sem_lock (dev m)))); [|lia].
        destruct (sem_lock (dev m)); cbn. f_equal. lia.
      * eexists. split; [reflexivity|].
        destruct (Z.eqb_spec len8 0); [done|].
        cbn [replicate concat]. rewrite app_nil_r.
        by rewrite sem_ops_cons_sem, sem_ops_app, sem_ops_tasks.
  - (* the request exceeds what is pending: take it, sleep, go on *)
    cbn [length] in Hbs, Hfuel.
    set (q := contents (thr_pool (dev m))) in *.
    assert (Z.of_nat (length q) < len8) as Hshort by lia.
    rewrite Z.min_r in Hbs by lia.
    rewrite get_entropy_chunk_step by lia. cbv zeta.
    destruct (rng_pool_get_spec _ len8 buf Hwt Hlen Hbuf)
      as (Hr & Hb & _ & Hg & Hq).
    pose proof (rng_pool_get_wf _ len8 buf Hwt Hlen Hbuf) as Hwt'.
    fold q in Hr, Hb, Hq, Hg.
    rewrite Z.min_r in Hr, Hb, Hq, Hg by lia.
    rewrite Nat2Z.id, drop_all in Hq. rewrite Nat2Z.id, (take_ge q) in Hb by lia.
    set (o := rng_pool_get (thr_pool (dev m)) len8 buf) in *.
    set (s := len8 - Z.of_nat (length q)) in *.
    assert (s = len8 - Z.of_nat (length q)) as Hsd by reflexivity.
    assert (count (get_rng o) = count (thr_pool (dev m))) as Hco
      by (by rewrite Hg).
    destruct (Z.eqb_spec (get_ret o) 0) as [E|_]; [lia|]. cbn [negb].
    set (m1 := Machine _ (hw m) (irq_enabled m)).
    assert (sem_lock (dev m1) = sem_lock (dev m)) as Hlk1.
    { cbn. unfold k_sem_give. cbn [sem_count sem_limit].
      destruct (Z.ltb_spec (sem_count (sem_lock (dev m)) - 1)
                  (sem_limit (sem_lock (dev m)))); [|lia].
      destruct (sem_lock (dev m)); cbn. f_equal. lia. }
    destruct (k_sem_take_sync_sleep b (bs ++ rest) m1)
      as (m2 & ev2 & Hsleep & Hpi2 & Hq2 & Hwt2 & Hct2 & Hlk2 & Hs2 & HsL2 & Hirq2
          & Hev2);
      [done|done|done|cbn; rewrite Hq; cbn; lia|done..|].
    cbn [app]. rewrite Hsleep.
    change (thr_pool (dev m1)) with (get_rng o) in Hq2, Hct2.
    change (isr_pool (dev m1)) with (isr_pool (dev m)) in Hpi2.
    change (sem_sync (dev m1)) with (sem_sync (dev m)) in HsL2.
    rewrite Hq in Hq2. cbn [app] in Hq2.
    assert (Z.of_nat (length (get_buf o)) = Z.of_nat (length buf)) as Hlb
      by (unfold o; by rewrite rng_pool_get_length).
    lazymatch goal with
    | |- context [get_entropy_chunk fuel (bs ++ rest) m2 (get_ret o)
                    (get_buf o) ?e] =>
        destruct (IH fuel m2 (get_ret o) (get_buf o) e rest)
          as (m' & evs' & Hrun & Hq' & Hw' & Hpi' & Hlk' & Hs' & Hirq'
              & new & Hnew & Hops)
    end.
    { by rewrite Hpi2. }
    { by rewrite Hpi2. }
    { done. }
    { lia. }
    { done. }
    { done. }
    { lia. }
    { rewrite Hlk2, Hlk1. lia. }
    { lia. }
    { lia. }
    { rewrite Hq2. cbn [length]. lia. }
    { lia. }
    rewrite Hrun. eexists _, _. split.
    + do 3 f_equal. rewrite Hq2, Hr, Hb. subst stream. fold s.
      assert (length (u8 b :: (u8 <$> bs)) = Z.to_nat s) as Hls
        by (cbn [length]; rewrite length_fmap; lia).
      rewrite take_ge by (cbn [app]; lia).
      rewrite drop_app_length' by (rewrite length_take; lia).
      rewrite take_ge by (rewrite length_app; cbn [fmap list_fmap]; lia).
      cbn [fmap list_fmap].
      rewrite ?reverse_app, ?reverse_cons, ?reverse_singleton, ?reverse_nil,
        <- ?app_assoc.
      cbn [app]. done.
    + rewrite Hq', Hq2, Hpi', Hpi2, Hlk', Hlk2, Hlk1, Hr. subst stream.
      split_and!; try done.
      * rewrite !drop_ge; [done|..];
          rewrite ?length_app; cbn [length fmap list_fmap];
          rewrite ?length_fmap; lia.
      * eexists. split; [rewrite Hnew, <- !(assoc_L (++)); reflexivity|].
        destruct (Z.eqb_spec len8 0); [lia|].
        destruct (Z.eqb_spec (get_ret o) 0); [lia|].
        rewrite sem_ops_app, sem_ops_cons_sem, sem_ops_app, sem_ops_tasks
          by done.
        rewrite sem_ops_app, Hev2, Hops.
        cbn [replicate concat length]. unfold wake_up, read_under_gate.
        reflexivity.
Qed.

(** X10.  The blocking call for up to 255 bytes in a run in which the
    handler is entered only while the caller sleeps on the wake signal (the
    runs [get_entropy_chunk] describes), while the ISR tier is full (so that
    the handler passes every generated byte on to the thread tier).  The
    call takes what the thread tier holds and sleeps once for every byte
    still missing: its semaphore operations are the gate taken and given
    back around the first read and then, once per missing byte, the
    handler's wake, the caller's wake-up and the gate taken and given back
    around the next read.  It returns 0 with buffer positions [0 .. len-1]
    holding the [len] oldest bytes of "pending thread-tier bytes, then
    generated bytes", written from position [len-1] downwards.  It consumes
    exactly the number of generated bytes that were missing, leaves the
    buffer beyond [len] alone and gives the gate semaphore back. *)
Theorem blocking_get_delivers_request fuel bs rest m buf len :
  pool_wf (isr_pool (dev m)) →
  Z.of_nat (length (contents (isr_pool (dev m))))
    = count (isr_pool (dev m)) - 1 →
  pool_wf (thr_pool (dev m)) → 2 ≤ count (thr_pool (dev m)) →
  irq_enabled m = true →
  sem_count (sem_sync (dev m)) = 0 → 1 ≤ sem_limit (sem_sync (dev m)) →
  0 < sem_count (sem_lock (dev m)) ≤ sem_limit (sem_lock (dev m)) →
  0 ≤ len ≤ 255 → len ≤ Z.of_nat (length buf) →
  Z.of_nat (length bs)
    = len - Z.min len (Z.of_nat (length (contents (thr_pool (dev m))))) →
  (length bs < fuel)%nat →
  let stream := contents (thr_pool (dev m)) ++ (u8 <$> bs) in
  ∃ o, entropy_nrf5_get_entropy fuel (bs ++ rest) m buf len = Some o ∧
    eo_ret o = 0 ∧ eo_samples o = rest ∧
    eo_buf o = reverse (take (Z.to_nat len) stream) ++ drop (Z.to_nat len) buf ∧
    contents (thr_pool (dev (eo_machine o))) = drop (Z.to_nat len) stream ∧
    isr_pool (dev (eo_machine o)) = isr_pool (dev m) ∧
    sem_lock (dev (eo_machine o)) = sem_lock (dev m) ∧
    sem_ops (eo_events o)
      = (if len =? 0 then [] else read_under_gate)
          ++ concat (replicate (length bs) wake_up).
Proof.
  intros Hwi Hfi Hwt Hct Hirq Hs0 HsL Hlk Hlen Hbuf Hbs Hfuel stream.
  unfold entropy_nrf5_get_entropy.
  destruct fuel as [|fuel]; [lia|].
  destruct (Z.eq_dec len 0) as [->|Hnz].
  - assert (bs = []) as -> by (destruct bs; [done|cbn in Hbs; lia]).
    rewrite get_entropy_loop_done. eexists; split; [reflexivity|].
    subst stream. cbn [eo_ret eo_samples eo_buf eo_machine app].
    change (Z.to_nat 0) with 0%nat. rewrite take_0, !drop_0.
    cbn [fmap list_fmap]. rewrite app_nil_r. done.
  - cbn [get_entropy_loop].
    destruct (Z.eqb_spec len 0); [done|].
    unfold UINT8_MAX. destruct (Z.ltb_spec 255 len); [lia|].
    rewrite (u8_small len) by lia. rewrite Z.sub_diag. change (u16 0) with 0.
    destruct (get_entropy_chunk_live bs (S fuel) m len buf [] rest)
      as (m' & evs' & Hrun & Hq' & _ & Hpi' & Hlk' & _ & _ & new & -> & Hops);
      [done..|].
    rewrite Hrun, get_entropy_loop_done.
    destruct (Z.eqb_spec len 0) in Hops; [done|].
    eexists; split; [reflexivity|]. done.
Qed.

Lemma blocking_get_delivers_request_witness :
  ∃ o, entropy_nrf5_get_entropy 9 ([4; 5; 6] ++ [7]) blocking_256_machine
         [0; 0; 0; 0] 3 = Some o ∧
       eo_buf o = [6; 5; 4; 0] ∧ eo_samples o = [7] ∧
       sem_ops (eo_events o)
       = read_under_gate ++ wake_up ++ wake_up ++ wake_up.
Proof.
  destruct (blocking_get_delivers_request 9 [4; 5; 6] [7] blocking_256_machine
              [0; 0; 0; 0] 3) as (o & Ho & _ & Hs & Hb & _ & _ & _ & He).
  - vm_compute. repeat split; discriminate.
  - reflexivity.
  - vm_compute. repeat split; discriminate.
  - vm_compute. discriminate.
  - reflexivity.
  - reflexivity.
  - vm_compute. discriminate.
  - vm_compute. split; [reflexivity|discriminate].
  - lia.
  - vm_compute. discriminate.
  - reflexivity.
  - vm_compute. repeat constructor.
  - exists o. split; [exact Ho|]. split; [exact Hb|]. split; [exact Hs|exact He].
Defined.

(** Well-formedness of the two pools through interrupts and sleeps. *)
Lemma irq_fire_wf b m :
  pool_wf (isr_pool (dev m)) → pool_wf (thr_pool (dev m)) →
  pool_wf (isr_pool (dev (irq_fire b m).1)) ∧
  pool_wf (thr_pool (dev (irq_fire b m).1)).
Proof.
  intros Hwi Hwt. unfold irq_fire. destruct (irq_enabled m); [|done].
  cbn [fst].
  by destruct (isr_step (Machine (dev m) (NrfRng true b) true) Hwi Hwt eq_refl)
    as (? & ? & _).
Qed.

Lemma k_sem_take_sync_wf samples : ∀ m m' s' ev,
  pool_wf (isr_pool (dev m)) → pool_wf (thr_pool (dev m)) →
  k_sem_take_sync samples m = Some (m', s', ev) →
  pool_wf (isr_pool (dev m')) ∧ pool_wf (thr_pool (dev m')).
Proof.
  induction samples as [|b samples IH]; intros m m' s' ev Hwi Hwt;
    cbn [k_sem_take_sync]; destruct (k_sem_try_take _).
  - intros [= <- <- <-]. done.
  - done.
  - intros [= <- <- <-]. done.
  - destruct (irq_fire_wf b m Hwi Hwt) as [Hwi1 Hwt1].
    destruct (irq_fire b m) as [m1 ev1]. cbn [fst] in *.
    destruct (k_sem_take_sync samples m1) as [[[m2 s2] ev2]|] eqn:E; [|done].
    intros [= <- <- <-]. by eapply IH.
Qed.

Lemma get_entropy_chunk_safe fuel : ∀ samples m len8 buf evs m' buf' s' evs',
  pool_wf (isr_pool (dev m)) → pool_wf (thr_pool (dev m)) →
  0 ≤ len8 ≤ 255 → len8 ≤ Z.of_nat (length buf) →
  get_entropy_chunk fuel samples m len8 buf evs = Some (m', buf', s', evs') →
  pool_wf (isr_pool (dev m')) ∧ pool_wf (thr_pool (dev m')) ∧
  length buf' = length buf ∧
  ∀ i : nat, len8 ≤ Z.of_nat i → buf' !! i = buf !! i.
Proof.
  induction fuel as [|fuel IH];
    intros samples m len8 buf evs m' buf' s' evs' Hwi Hwt Hlen Hbuf;
    cbn [get_entropy_chunk].
  - destruct (len8 =? 0); [|done]. intros [= <- <- <- <-]. done.
  - destruct (len8 =? 0); [intros [= <- <- <- <-]; done|].
    destruct (k_sem_try_take _) as [lk|]; [|done].
    destruct (rng_pool_get_spec _ len8 buf Hwt Hlen Hbuf) as (Hr & _).
    pose proof (rng_pool_get_wf _ len8 buf Hwt Hlen Hbuf) as Hwt1.
    pose proof (rng_pool_get_length (thr_pool (dev m)) len8 buf) as Hl1.
    pose proof (rng_pool_get_above (thr_pool (dev m)) len8 buf) as Ha1.
    set (o := rng_pool_get (thr_pool (dev m)) len8 buf) in *.
    set (m1 := Machine _ (hw m) (irq_enabled m)).
    assert (0 ≤ get_ret o ≤ len8) as Hret by lia.
    destruct (negb _).
    + destruct (k_sem_take_sync samples m1) as [[[m2 s2] ev2]|] eqn:E; [|done].
      destruct (k_sem_take_sync_wf samples m1 _ _ _ Hwi Hwt1 E) as [Hwi2 Hwt2].
      intros Hrun. apply IH in Hrun as (? & ? & Hl & Ha); [|done|done|lia..].
      split_and!; [done|done|congruence|].
      intros i Hi. rewrite Ha, Ha1 by lia. done.
    + intros Hrun.
      apply (IH samples m1) in Hrun as (? & ? & Hl & Ha); [|done|done|lia..].
      split_and!; [done|done|congruence|].
      intros i Hi. rewrite Ha, Ha1 by lia. done.
Qed.

Lemma get_entropy_loop_safe fuel ifuel : ∀ samples m len buf evs o,
  pool_wf (isr_pool (dev m)) → pool_wf (thr_pool (dev m)) →
  0 ≤ len < 65536 → Z.min len 255 ≤ Z.of_nat (length buf) →
  get_entropy_loop fuel ifuel samples m len buf evs = Some o →
  eo_ret o = 0 ∧
  pool_wf (isr_pool (dev (eo_machine o))) ∧
  pool_wf (thr_pool (dev (eo_machine o))) ∧
  length (eo_buf o) = length buf ∧
  ∀ i : nat, Z.min len 255 ≤ Z.of_nat i → eo_buf o !! i = buf !! i.
Proof.
  induction fuel as [|fuel IH]; intros samples m len buf evs o Hwi Hwt Hlen Hbuf;
    cbn [get_entropy_loop].
  - destruct (len =? 0); [|done]. intros [= <-]. done.
  - destruct (Z.eqb_spec len 0); [intros [= <-]; done|].
    set (len8 := if UINT8_MAX <? len then UINT8_MAX else u8 len).
    assert (len8 = Z.min len 255) as Hl8.
    { subst len8. unfold UINT8_MAX. destruct (Z.ltb_spec 255 len); [lia|].
      rewrite u8_small; lia. }
    destruct (get_entropy_chunk ifuel samples m len8 buf evs)
      as [[[[m1 buf1] s1] ev1]|] eqn:Hc; [|done].
    apply get_entropy_chunk_safe in Hc as (Hwi1 & Hwt1 & Hl1 & Ha1);
      [|done|done|lia..].
    intros Hrun.
    assert (0 ≤ u16 (len - len8) < 65536 ∧ u16 (len - len8) ≤ len - len8)
      as [Hu Hu'].
    { unfold u16. rewrite Z.mod_small by lia. lia. }
    assert (u16 (len - len8) = 0 ∨ len8 = 255) as Hcase.
    { unfold u16. rewrite Z.mod_small by lia. lia. }
    apply IH in Hrun as (Hr & ? & ? & Hl & Ha); [|done|done|done|].
    + split_and!; [done|done|done|congruence|].
      intros i Hi. rewrite Ha, Ha1; [done|lia|].
      destruct Hcase as [->|]; lia.
    + rewrite Hl1. destruct Hcase as [->|]; lia.
Qed.

(** X11.  The blocking call stays inside the caller's buffer and keeps the
    pools sound: for any stream of generated bytes and any request, if the
    call returns it returns 0, both pools are still well formed, the buffer
    has kept its length, and no position at or beyond [min len 255] has been
    written. *)
Theorem get_entropy_stays_in_bounds fuel samples m buf len o :
  pool_wf (isr_pool (dev m)) → pool_wf (thr_pool (dev m)) →
  0 ≤ len < 65536 → Z.min len 255 ≤ Z.of_nat (length buf) →
  entropy_nrf5_get_entropy fuel samples m buf len = Some o →
  eo_ret o = 0 ∧
  pool_wf (isr_pool (dev (eo_machine o))) ∧
  pool_wf (thr_pool (dev (eo_machine o))) ∧
  length (eo_buf o) = length buf ∧
  ∀ i : nat, Z.min len 255 ≤ Z.of_nat i → eo_buf o !! i = buf !! i.
Proof. intros Hwi Hwt Hlen Hbuf. by apply get_entropy_loop_safe. Qed.

Lemma get_entropy_stays_in_bounds_witness :
  ∃ o, entropy_nrf5_get_entropy 9 [4; 5; 6; 7] blocking_256_machine
         [0; 0; 0; 9] 3 = Some o ∧
       eo_ret o = 0 ∧ eo_buf o !! 3%nat = Some 9.
Proof.
  destruct (entropy_nrf5_get_entropy 9 [4; 5; 6; 7] blocking_256_machine
              [0; 0; 0; 9] 3) as [o|] eqn:E;
    [|vm_compute in E; discriminate].
  exists o. split; [reflexivity|].
  destruct (get_entropy_stays_in_bounds 9 [4; 5; 6; 7] blocking_256_machine
              [0; 0; 0; 9] 3 o) as (Hr & _ & _ & _ & Ha).
  - vm_compute. repeat split; discriminate.
  - vm_compute. repeat split; discriminate.
  - lia.
  - vm_compute. discriminate.
  - exact E.
  - split; [exact Hr|]. apply (Ha 3%nat). vm_compute. discriminate.
Defined.

(** X12.  The eight-bit entry point [entropy_nrf_get_entropy_isr] on a
    well-formed ISR-tier pool: asked for [len] it hands out the
    [k = min len pending] oldest bytes, returns the shortfall [len - k],
    leaves the [pending - k] younger bytes in the pool in their order, keeps
    the pool well formed, writes buffer positions [len-k .. len-1] only, and
    triggers START exactly when fewer bytes than the threshold are left. *)
Theorem get_entropy_isr_u8_contract m buf len :
  pool_wf (isr_pool (dev m)) →
  0 ≤ len ≤ 255 → len ≤ Z.of_nat (length buf) →
  let q := contents (isr_pool (dev m)) in
  let k := Z.min len (Z.of_nat (length q)) in
  let o := entropy_nrf_get_entropy_isr m buf len in
  get_ret o = len - k ∧
  get_buf o = take (Z.to_nat (len - k)) buf ++ reverse (take (Z.to_nat k) q)
                ++ drop (Z.to_nat len) buf ∧
  contents (get_rng o) = drop (Z.to_nat k) q ∧
  pool_wf (get_rng o) ∧
  get_tasks o = (if Z.of_nat (length q) - k <? threshold (isr_pool (dev m))
                 then [NRF_RNG_TASK_START] else []).
Proof.
  intros Hwf Hlen Hbuf q k o. unfold entropy_nrf_get_entropy_isr in o.
  destruct (rng_pool_get_spec _ len buf Hwf Hlen Hbuf) as (Hr & Hb & Ht & _ & Hq).
  pose proof (rng_pool_get_wf _ len buf Hwf Hlen Hbuf).
  done.
Qed.

Lemma get_entropy_isr_u8_contract_witness :
  get_ret (entropy_nrf_get_entropy_isr isr_tier_three [0; 0; 0; 0; 0] 5) = 5 - 3.
Proof.
  refine (proj1 (get_entropy_isr_u8_contract isr_tier_three [0; 0; 0; 0; 0] 5
                   _ _ _));
    vm_compute; try done; repeat split; discriminate.
Defined.

(** ** The Bluetooth shell's address parser *)

(** X13.  [char2hex] decodes exactly the hexadecimal digits: the digit of any
    value below 16, in either case, is decoded to that value with result 0;
    whenever the result is 0 the value is below 16; and any other character
    gives [-EINVAL] and leaves the output byte alone. *)
Theorem char2hex_decodes_hex_digits c x :
  (∀ upper v, 0 ≤ v < 16 → char2hex (hex_digit upper v) x = (0, v)) ∧
  ((char2hex c x).1 = 0 → 0 ≤ (char2hex c x).2 < 16) ∧
  ((char2hex c x).1 ≠ 0 → char2hex c x = (- EINVAL, x)) ∧
  ((char2hex c x).1 = 0 ↔
     48 ≤ c ≤ 57 ∨ 97 ≤ c ≤ 102 ∨ 65 ≤ c ≤ 70).
Proof.
  split_and!.
  - intros upper v Hv. unfold hex_digit, char2hex.
    destruct (Z.ltb_spec v 10), upper;
      repeat match goal with
      | |- context [?a <=? ?b] => destruct (Z.leb_spec a b); try lia
      end; cbn [andb]; rewrite u8_small by lia; f_equal; lia.
  - unfold char2hex.
    repeat match goal with
    | |- context [?a <=? ?b] => destruct (Z.leb_spec a b)
    end; cbn [andb fst snd]; try done; intros _; rewrite u8_small; lia.
  - unfold char2hex.
    repeat match goal with
    | |- context [?a <=? ?b] => destruct (Z.leb_spec a b)
    end; cbn [andb fst snd]; done.
  - unfold char2hex.
    repeat match goal with
    | |- context [?a <=? ?b] => destruct (Z.leb_spec a b)
    end; cbn [andb fst snd]; split; try done; try lia; auto.
Qed.

Lemma char2hex_decodes_hex_digits_witness : char2hex 70 9 = (0, 15).
Proof.
  refine (proj1 (char2hex_decodes_hex_digits 0 9) true 15 _). lia.
Defined.

(** Or-ing a digit into a multiple of 16 adds it. *)
Lemma lor_low_nibble a d :
  0 ≤ d < 16 → Z.lor (16 * a) d = 16 * a + d.
Proof.
  intros Hd. rewrite <- (Z.add_lor_land (16 * a) d).
  assert (Z.land (16 * a) d = 0) as ->; [|lia].
  apply Z.bits_inj'. intros n Hn. rewrite Z.land_spec, Z.bits_0.
  destruct (Z.lt_ge_cases n 4) as [Hlt|Hge].
  - replace (16 * a) with (a * 2 ^ 4) by lia.
    by rewrite Z.mul_pow2_bits_low.
  - destruct (Z.eq_dec d 0) as [->|Hnz]; [by rewrite Z.bits_0, andb_false_r|].
    rewrite (Z.bits_above_log2 d n), andb_false_r; [done|lia|].
    assert (Z.log2 d < 4); [|lia]. apply Z.log2_lt_pow2; lia.
Qed.

(** Two hexadecimal digits shifted into a byte replace whatever it held. *)
Lemma nibble_merge v dh dl :
  0 ≤ dh < 16 → 0 ≤ dl < 16 →
  Z.lor (u8 (Z.shiftl (Z.lor (u8 (Z.shiftl v 4)) dh) 4)) dl = 16 * dh + dl.
Proof.
  intros Hh Hl. unfold u8. rewrite !Z.shiftl_mul_pow2 by lia.
  change (2 ^ 4) with 16.
  replace (v * 16 mod 256) with (16 * (v mod 16))
    by (change 256 with (16 * 16); rewrite (Z.mul_comm v 16);
        by rewrite Z.mul_mod_distr_l).
  rewrite lor_low_nibble by done.
  replace ((16 * (v mod 16) + dh) * 16) with (16 * dh + (v mod 16) * 256) by lia.
  rewrite Z.mod_add, Z.mod_small by lia.
  by apply lor_low_nibble.
Qed.

Lemma hex_digit_decodes upper v x :
  0 ≤ v < 16 → char2hex (hex_digit upper v) x = (0, v).
Proof.
  intros Hv. unfold hex_digit, char2hex.
  destruct (Z.ltb_spec v 10), upper;
    repeat match goal with
    | |- context [?a <=? ?b] => destruct (Z.leb_spec a b); try lia
    end; cbn [andb]; rewrite u8_small by lia; f_equal; lia.
Qed.

Lemma hex_digit_not_colon upper v : 0 ≤ v < 16 → hex_digit upper v ≠ 58.
Proof. unfold hex_digit. destruct (Z.ltb_spec v 10), upper; lia. Qed.

Lemma load_insert (l : list Z) (i : nat) x :
  (i < length l)%nat → mem_load (<[i := x]> l) (Z.of_nat i) = x.
Proof. intros H. apply load_nat. by apply list_lookup_insert_eq. Qed.

Lemma char2hex_cases c x :
  (hex_char c ∧ ∃ v, char2hex c x = (0, v)) ∨
  (¬ hex_char c ∧ char2hex c x = (- EINVAL, x)).
Proof.
  unfold char2hex, hex_char.
  repeat match goal with
  | |- context [?a <=? ?b] => destruct (Z.leb_spec a b)
  end; cbn [andb]; first [left; split; [lia|by eexists] | right; split; [lia|done]].
Qed.

(** *** One step of the parser's loop *)

(** A character at a position that is a multiple of three must be a colon. *)
Lemma str2bt_addr_loop_reject c rest i j tmp addr :
  Z.rem j 3 = 0 → c ≠ 58 →
  str2bt_addr_loop (c :: rest) i j tmp addr = Some (- EINVAL, addr).
Proof.
  intros Hj Hc. cbn [str2bt_addr_loop]. rewrite Hj.
  destruct (Z.eqb_spec c 58); done.
Qed.

(** A colon, at any position, lowers the index. *)
Lemma str2bt_addr_loop_colon rest i j tmp addr :
  str2bt_addr_loop (58 :: rest) i j tmp addr
  = str2bt_addr_loop rest (i - 1) (j + 1) tmp addr.
Proof. cbn [str2bt_addr_loop]. by rewrite andb_false_r. Qed.

(** Any other character: the byte [a.val[i]] is shifted before the
    character is looked at. *)
Lemma str2bt_addr_loop_digit c rest i j tmp addr :
  Z.rem j 3 ≠ 0 → c ≠ 58 →
  str2bt_addr_loop (c :: rest) i j tmp addr
  = if (i <? -1) || (5 <? i) then None
    else
      let get a := if i =? -1 then addr_type a else mem_load (addr_val a) i in
      let set a v :=
        if i =? -1 then BtAddrLe v (addr_val a)
        else BtAddrLe (addr_type a) (mem_store (addr_val a) i v) in
      let addr1 := set addr (u8 (Z.shiftl (get addr) 4)) in
      if (char2hex c tmp).1 <? 0 then Some (- EINVAL, addr1)
      else str2bt_addr_loop rest i (j + 1) (char2hex c tmp).2
             (set addr1 (Z.lor (get addr1) (char2hex c tmp).2)).
Proof.
  intros Hj Hc. cbn [str2bt_addr_loop].
  destruct (Z.eqb_spec (Z.rem j 3) 0); [done|].
  destruct (Z.eqb_spec c 58); [done|]. cbn [andb].
  unfold a_val_get, a_val_set.
  destruct ((i <? -1) || (5 <? i)); [done|].
  destruct (char2hex c tmp) as [r tmp'].
  destruct (i =? -1); cbn [mbind option_bind fst snd];
    by destruct (r <? 0).
Qed.

(** The five ways the loop deals with a character. *)
Lemma str2bt_addr_loop_cases c rest i j tmp addr :
  (Z.rem j 3 = 0 ∧ c ≠ 58 ∧
   str2bt_addr_loop (c :: rest) i j tmp addr = Some (- EINVAL, addr)) ∨
  (c = 58 ∧
   str2bt_addr_loop (c :: rest) i j tmp addr
   = str2bt_addr_loop rest (i - 1) (j + 1) tmp addr) ∨
  (Z.rem j 3 ≠ 0 ∧ c ≠ 58 ∧ (i < -1 ∨ 5 < i) ∧
   str2bt_addr_loop (c :: rest) i j tmp addr = None) ∨
  (Z.rem j 3 ≠ 0 ∧ c ≠ 58 ∧ -1 ≤ i ≤ 5 ∧ ¬ hex_char c ∧
   ∃ addr1, str2bt_addr_loop (c :: rest) i j tmp addr = Some (- EINVAL, addr1) ∧
            (0 ≤ i → addr_type addr1 = addr_type addr)) ∨
  (Z.rem j 3 ≠ 0 ∧ c ≠ 58 ∧ -1 ≤ i ≤ 5 ∧ hex_char c ∧
   ∃ v addr2, str2bt_addr_loop (c :: rest) i j tmp addr
              = str2bt_addr_loop rest i (j + 1) v addr2 ∧
              (0 ≤ i → addr_type addr2 = addr_type addr)).
Proof.
  destruct (Z.eq_dec c 58) as [->|Hc].
  { right. left. split; [done|]. apply str2bt_addr_loop_colon. }
  destruct (Z.eq_dec (Z.rem j 3) 0) as [Hj|Hj].
  { left. split_and!; [done..|]. by apply str2bt_addr_loop_reject. }
  right. right. rewrite (str2bt_addr_loop_digit c rest i j tmp addr Hj Hc).
  destruct (Z.ltb_spec i (-1)); cbn [orb]; [left; split_and!; [done..|lia|done]|].
  destruct (Z.ltb_spec 5 i); [left; split_and!; [done..|lia|done]|].
  right. cbv zeta.
  assert (∀ a v, 0 ≤ i →
            addr_type (if i =? -1 then BtAddrLe v (addr_val a)
                       else BtAddrLe (addr_type a) (mem_store (addr_val a) i v))
            = addr_type a) as Hty.
  { intros a v Hi. destruct (Z.eqb_spec i (-1)); [lia|done]. }
  destruct (char2hex_cases c tmp) as [[Hh [v ->]]|[Hh ->]]; cbn [fst snd].
  - right. split_and!; [done..|lia|done|].
    eexists _, _. split; [reflexivity|]. intros Hi. by rewrite !Hty.
  - left. split_and!; [done..|lia|done|].
    eexists. split; [reflexivity|]. intros Hi. by rewrite Hty.
Qed.

Lemma colons_before_0 str : colons_before str 0 = 0.
Proof. done. Qed.

Lemma colons_before_colon str k :
  colons_before (58 :: str) (S k) = 1 + colons_before str k.
Proof.
  unfold colons_before. cbn [take]. rewrite filter_cons_True by done.
  cbn [length]. lia.
Qed.

Lemma colons_before_other c str k :
  c ≠ 58 → colons_before (c :: str) (S k) = colons_before str k.
Proof.
  intros Hc. unfold colons_before. cbn [take]. by rewrite filter_cons_False.
Qed.

Lemma colons_before_nonneg str k : 0 ≤ colons_before str k.
Proof. unfold colons_before. lia. Qed.

(** A property of all the characters of [c :: rest] and their offsets. *)
Lemma forall_lookup_cons (P : nat → Z → Prop) c rest :
  (∀ k c', (c :: rest) !! k = Some c' → P k c') ↔
  P 0%nat c ∧ ∀ k c', rest !! k = Some c' → P (S k) c'.
Proof.
  split.
  - intros H. split; [by apply H|]. intros k c' Hk. by apply H.
  - intros [H0 HS] [|k] c' Hk; cbn in Hk; [by simplify_eq|by apply HS].
Qed.

(** The value the loop returns is 0 or [-EINVAL], and it is 0 exactly when
    every character is a colon, or a hexadecimal digit whose position is
    not a multiple of three. *)
Lemma str2bt_addr_loop_ret str : ∀ i j tmp addr ret addr',
  str2bt_addr_loop str i j tmp addr = Some (ret, addr') →
  (ret = 0 ∨ ret = - EINVAL) ∧
  (ret = 0 ↔
   ∀ (k : nat) c, str !! k = Some c →
     c = 58 ∨ (hex_char c ∧ Z.rem (j + Z.of_nat k) 3 ≠ 0)).
Proof.
  induction str as [|c rest IH]; intros i j tmp addr ret addr' Hrun.
  { cbn in Hrun. simplify_eq. split; [by left|].
    split; [intros _ k c' Hk; by destruct k|done]. }
  rewrite (forall_lookup_cons
             (λ k c', c' = 58 ∨ (hex_char c' ∧ Z.rem (j + Z.of_nat k) 3 ≠ 0))).
  change (Z.of_nat 0) with 0. rewrite Z.add_0_r.
  assert (∀ k : nat, j + Z.of_nat (S k) = j + 1 + Z.of_nat k) as Hk by lia.
  setoid_rewrite Hk.
  destruct (str2bt_addr_loop_cases c rest i j tmp addr)
    as [(Hj & Hc & E)|[(-> & E)|[(Hj & Hc & _ & E)|[(Hj & Hc & _ & Hh & a1 & E & _)
       |(Hj & Hc & _ & Hh & v & a2 & E & _)]]]];
    rewrite E in Hrun.
  - simplify_eq. split; [by right|]. split; [done|].
    intros [[?|[_ ?]] _]; done.
  - destruct (IH _ _ _ _ _ _ Hrun) as [H1 H2]. split; [done|].
    rewrite H2. split; [intros H; split; [by left|done]|by intros [_ H]].
  - done.
  - simplify_eq. split; [by right|]. split; [done|].
    intros [[?|[? _]] _]; done.
  - destruct (IH _ _ _ _ _ _ Hrun) as [H1 H2]. split; [done|].
    rewrite H2. split; [intros H; split; [by right|done]|by intros [_ H]].
Qed.

(** As long as the index stays at 0 or above, the loop leaves the [type]
    member alone. *)
Lemma str2bt_addr_loop_type str : ∀ i j tmp addr ret addr',
  (∀ (k : nat) c, str !! k = Some c → c ≠ 58 → 0 ≤ i - colons_before str k) →
  str2bt_addr_loop str i j tmp addr = Some (ret, addr') →
  addr_type addr' = addr_type addr.
Proof.
  induction str as [|c rest IH]; intros i j tmp addr ret addr' Hin Hrun.
  { cbn in Hrun. by simplify_eq. }
  destruct (str2bt_addr_loop_cases c rest i j tmp addr)
    as [(Hj & Hc & E)|[(-> & E)|[(Hj & Hc & _ & E)|[(Hj & Hc & _ & Hh & a1 & E & Ht)
       |(Hj & Hc & _ & Hh & v & a2 & E & Ht)]]]];
    rewrite E in Hrun.
  - by simplify_eq.
  - apply (IH _ _ _ _ _ _) in Hrun; [done|].
    intros k c Hk Hc. specialize (Hin (S k) c Hk Hc).
    rewrite colons_before_colon in Hin. lia.
  - done.
  - simplify_eq. apply Ht. specialize (Hin 0%nat c eq_refl Hc).
    rewrite colons_before_0 in Hin. lia.
  - assert (0 ≤ i) as Hi.
    { specialize (Hin 0%nat c eq_refl Hc). rewrite colons_before_0 in Hin. lia. }
    apply (IH _ _ _ _ _ _) in Hrun; [by rewrite Hrun, Ht|].
    intros k c' Hk Hc'. specialize (Hin (S k) c' Hk Hc').
    by rewrite colons_before_other in Hin.
Qed.

(** The loop leaves [*addr] exactly when it comes to a character other than
    a colon, at a position that is not a multiple of three, with more than
    six colons passed, all characters before it having been accepted. *)
Lemma str2bt_addr_loop_none str : ∀ i j tmp addr,
  i ≤ 5 →
  str2bt_addr_loop str i j tmp addr = None ↔
  ∃ (k : nat) c,
    str !! k = Some c ∧ c ≠ 58 ∧ Z.rem (j + Z.of_nat k) 3 ≠ 0 ∧
    i - colons_before str k < -1 ∧
    ∀ (k' : nat) c', (k' < k)%nat → str !! k' = Some c' →
      c' = 58 ∨ (hex_char c' ∧ Z.rem (j + Z.of_nat k') 3 ≠ 0).
Proof.
  induction str as [|c rest IH]; intros i j tmp addr Hi.
  { cbn. split; [done|]. by intros (k & c & ? & _). }
  assert (∀ k : nat, j + Z.of_nat (S k) = j + 1 + Z.of_nat k) as HS by lia.
  (* the witness is the first character, or lies in the rest *)
  assert (∀ i',
    (∃ (k : nat) c0,
       rest !! k = Some c0 ∧ c0 ≠ 58 ∧ Z.rem (j + 1 + Z.of_nat k) 3 ≠ 0 ∧
       i' - colons_before rest k < -1 ∧
       ∀ (k' : nat) c', (k' < k)%nat → rest !! k' = Some c' →
         c' = 58 ∨ (hex_char c' ∧ Z.rem (j + 1 + Z.of_nat k') 3 ≠ 0)) →
    (c = 58 ∨ (hex_char c ∧ Z.rem j 3 ≠ 0)) →
    i' = i - (if decide (c = 58) then 1 else 0) →
    ∃ (k : nat) c0,
      (c :: rest) !! k = Some c0 ∧ c0 ≠ 58 ∧ Z.rem (j + Z.of_nat k) 3 ≠ 0 ∧
      i - colons_before (c :: rest) k < -1 ∧
      ∀ (k' : nat) c', (k' < k)%nat → (c :: rest) !! k' = Some c' →
        c' = 58 ∨ (hex_char c' ∧ Z.rem (j + Z.of_nat k') 3 ≠ 0)) as Hup.
  { intros i' (k & c0 & Hk & Hc0 & Hr & Hlt & Hpre) Hc ->.
    exists (S k), c0. rewrite HS. split_and!; [done..| |].
    - destruct (decide (c = 58)) as [->|?].
      + rewrite colons_before_colon. lia.
      + rewrite colons_before_other by done. lia.
    - intros [|k'] c' Hk' Hl; cbn in Hl.
      + simplify_eq. by rewrite Z.add_0_r.
      + rewrite HS. apply Hpre; [lia|done]. }
  assert (∀ i',
    (∃ (k : nat) c0,
      (c :: rest) !! k = Some c0 ∧ c0 ≠ 58 ∧ Z.rem (j + Z.of_nat k) 3 ≠ 0 ∧
      i - colons_before (c :: rest) k < -1 ∧
      ∀ (k' : nat) c', (k' < k)%nat → (c :: rest) !! k' = Some c' →
        c' = 58 ∨ (hex_char c' ∧ Z.rem (j + Z.of_nat k') 3 ≠ 0)) →
    i' = i - (if decide (c = 58) then 1 else 0) →
    (c ≠ 58 ∧ Z.rem j 3 ≠ 0 ∧ i < -1) ∨
    ((c = 58 ∨ (hex_char c ∧ Z.rem j 3 ≠ 0)) ∧
     ∃ (k : nat) c0,
       rest !! k = Some c0 ∧ c0 ≠ 58 ∧ Z.rem (j + 1 + Z.of_nat k) 3 ≠ 0 ∧
       i' - colons_before rest k < -1 ∧
       ∀ (k' : nat) c', (k' < k)%nat → rest !! k' = Some c' →
         c' = 58 ∨ (hex_char c' ∧ Z.rem (j + 1 + Z.of_nat k') 3 ≠ 0))) as Hdown.
  { intros i' (k & c0 & Hk & Hc0 & Hr & Hlt & Hpre) ->.
    destruct k as [|k]; cbn in Hk.
    - simplify_eq. left. rewrite colons_before_0 in Hlt.
      rewrite Z.add_0_r in Hr. split_and!; [done..|lia].
    - right. split.
      + specialize (Hpre 0%nat c). rewrite Z.add_0_r in Hpre.
        apply Hpre; [lia|done].
      + exists k, c0. rewrite HS in Hr. split_and!; [done..| |].
        * destruct (decide (c = 58)) as [->|?].
          -- rewrite colons_before_colon in Hlt. lia.
          -- rewrite colons_before_other in Hlt by done. lia.
        * intros k' c' Hl Hk'. rewrite <- HS. apply Hpre; [lia|done]. }
  destruct (str2bt_addr_loop_cases c rest i j tmp addr)
    as [(Hj & Hc & E)|[(-> & E)|[(Hj & Hc & Hout & E)|[(Hj & Hc & Hin & Hh & a1 & E & _)
       |(Hj & Hc & Hin & Hh & v & a2 & E & _)]]]];
    rewrite E.
  - split; [done|]. intros H.
    destruct (Hdown _ H eq_refl) as [(_ & ? & _)|([?|[_ ?]] & _)]; done.
  - rewrite IH by lia. split.
    + intros H. apply (Hup (i - 1)); [done|by left|].
      by rewrite decide_True.
    + intros H. destruct (Hdown (i - 1) H) as [(? & _)|(_ & ?)];
        [by rewrite decide_True|done|done].
  - split; [intros _|done]. exists 0%nat, c.
    rewrite colons_before_0, Z.add_0_r. split_and!; [done..|lia|].
    intros k' c' Hk'. lia.
  - split; [done|]. intros H.
    destruct (Hdown _ H eq_refl) as [(_ & _ & ?)|([?|[? _]] & _)]; [lia|done..].
  - rewrite IH by lia. split.
    + intros H. apply (Hup i); [done|by right|].
      rewrite decide_False by done. lia.
    + intros H. destruct (Hdown i H) as [(_ & _ & ?)|(_ & ?)];
        [rewrite decide_False by done; lia|lia|done].
Qed.

(** *** The text of an address *)

(** One byte of text, at a position where a byte starts. *)
Lemma str2bt_addr_loop_byte upper b rest (i : nat) j tmp addr :
  0 ≤ b < 256 → Z.rem j 3 = 1 → 0 < j →
  (i < length (addr_val addr))%nat → (i ≤ 5)%nat →
  str2bt_addr_loop
    (hex_digit upper (b / 16) :: hex_digit upper (b mod 16) :: rest)
    (Z.of_nat i) j tmp addr
  = str2bt_addr_loop rest (Z.of_nat i) (j + 1 + 1) (b mod 16)
      (BtAddrLe (addr_type addr) (<[i := b]> (addr_val addr))).
Proof.
  intros Hb Hj Hj0 Hi Hi5.
  assert (0 ≤ b / 16 < 16) as Hh
    by (split; [apply Z.div_pos; lia | apply Z.div_lt_upper_bound; lia]).
  assert (0 ≤ b mod 16 < 16) as Hl by (apply Z.mod_pos_bound; lia).
  assert (Z.rem (j + 1) 3 = 2) as Hj1.
  { rewrite Z.rem_mod_nonneg in * by lia.
    rewrite <- Z.add_mod_idemp_l, Hj by lia. done. }
  destruct (lookup_lt_is_Some_2 (addr_val addr) i Hi) as [v Hv].
  pose proof (hex_digit_not_colon upper _ Hh) as Hc1.
  pose proof (hex_digit_not_colon upper _ Hl) as Hc2.
  rewrite str2bt_addr_loop_digit by (done || lia).
  destruct (Z.ltb_spec (Z.of_nat i) (-1)); [lia|].
  destruct (Z.ltb_spec 5 (Z.of_nat i)); [lia|].
  destruct (Z.eqb_spec (Z.of_nat i) (-1)); [lia|].
  cbn [orb]. cbv zeta. rewrite hex_digit_decodes by done.
  cbn [fst snd addr_type addr_val]. change (0 <? 0) with false. cbv iota.
  rewrite str2bt_addr_loop_digit by (done || lia).
  destruct (Z.ltb_spec (Z.of_nat i) (-1)); [lia|].
  destruct (Z.ltb_spec 5 (Z.of_nat i)); [lia|].
  destruct (Z.eqb_spec (Z.of_nat i) (-1)); [lia|].
  cbn [orb]. cbv zeta. rewrite hex_digit_decodes by done.
  cbn [fst snd addr_type addr_val]. change (0 <? 0) with false. cbv iota.
  rewrite (load_nat _ _ _ Hv), !store_nat.
  repeat (rewrite load_insert by (rewrite ?length_insert; done);
          rewrite ?store_nat).
  rewrite !list_insert_insert_eq, nibble_merge by done.
  do 3 f_equal. pose proof (Z.div_mod b 16). lia.
Qed.

Lemma length_addr_text upper b bs :
  length (addr_text upper (b :: bs)) = (3 * length bs + 2)%nat.
Proof.
  revert b. induction bs as [|b' bs IH]; intros b; [done|].
  change (addr_text upper (b :: b' :: bs))
    with ([hex_digit upper (b / 16); hex_digit upper (b mod 16); 58]
            ++ addr_text upper (b' :: bs)).
  rewrite length_app, IH. cbn [length]. lia.
Qed.

(** The loop over the text of the bytes [b :: bs], started at the index of
    the byte [b], writes the bytes from that index down to index 0 and
    leaves the [type] member alone. *)
Lemma str2bt_addr_loop_text upper bs : ∀ b j tmp addr,
  0 ≤ b < 256 → Forall (λ b, 0 ≤ b < 256) bs →
  Z.rem j 3 = 1 → 0 < j →
  (length bs < length (addr_val addr))%nat → (length bs ≤ 5)%nat →
  str2bt_addr_loop (addr_text upper (b :: bs)) (Z.of_nat (length bs)) j
    tmp addr
  = Some (0, BtAddrLe (addr_type addr)
               (reverse (b :: bs) ++ drop (S (length bs)) (addr_val addr))).
Proof.
  induction bs as [|b' bs IH]; intros b j tmp addr Hb Hbs Hj Hj0 Hlen Hlen5.
  - change (addr_text upper [b])
      with (hex_digit upper (b / 16) :: hex_digit upper (b mod 16) :: []).
    rewrite (str2bt_addr_loop_byte upper b [] 0) by (done || lia).
    cbn [str2bt_addr_loop length].
    destruct (addr_val addr); [cbn in Hlen; lia|done].
  - change (addr_text upper (b :: b' :: bs))
      with (hex_digit upper (b / 16) :: hex_digit upper (b mod 16) :: 58
              :: addr_text upper (b' :: bs)).
    rewrite str2bt_addr_loop_byte by done.
    assert (Z.rem (j + 1 + 1 + 1) 3 = 1) as Hj3.
    { rewrite Z.rem_mod_nonneg in * by lia.
      replace (j + 1 + 1 + 1) with (j + 1 * 3) by lia.
      by rewrite Z.mod_add. }
    rewrite str2bt_addr_loop_colon.
    replace (Z.of_nat (length (b' :: bs)) - 1) with (Z.of_nat (length bs))
      by (cbn [length]; lia).
    apply Forall_cons in Hbs as [Hb' Hbs].
    cbn [length] in Hlen, Hlen5.
    rewrite IH;
      [|done|done|done|lia|cbn [addr_val]; rewrite length_insert; lia|lia].
    cbn [addr_type addr_val length].
    rewrite (reverse_cons (b' :: bs) b), <- (assoc_L (++)). do 4 f_equal.
    rewrite insert_take_drop by lia.
    by rewrite drop_app_length' by (rewrite length_take; lia).
Qed.

(** *** [str2bt_addr_le] *)

Lemma str2bt_addr_le_length str type addr :
  length str ≠ 17%nat → str2bt_addr_le str type addr = Some (- EINVAL, addr).
Proof.
  intros H. unfold str2bt_addr_le.
  destruct (Z.eqb_spec (Z.of_nat (length str)) 17); [lia|done].
Qed.

(** After the length test the function is its loop, followed by the
    comparison of the type name. *)
Lemma str2bt_addr_le_loop str type addr :
  length str = 17%nat →
  str2bt_addr_le str type addr
  = match str2bt_addr_loop str 5 1 0 addr with
    | None => None
    | Some (r, addr1) =>
        if negb (r =? 0) then Some (- EINVAL, addr1)
        else if bool_decide (type = str_public)
                || bool_decide (type = str_public_paren)
             then Some (0, BtAddrLe BT_ADDR_LE_PUBLIC (addr_val addr1))
        else if bool_decide (type = str_random)
                || bool_decide (type = str_random_paren)
             then Some (0, BtAddrLe BT_ADDR_LE_RANDOM (addr_val addr1))
        else Some (- EINVAL, addr1)
    end.
Proof.
  intros H. unfold str2bt_addr_le. rewrite H. cbn [Z.of_nat Z.eqb Pos.eqb negb].
  by destruct (str2bt_addr_loop str 5 1 0 addr) as [[r addr1]|].
Qed.

Lemma str2bt_addr_le_ret str type addr ret addr' :
  str2bt_addr_le str type addr = Some (ret, addr') →
  ret = 0 ∨ ret = - EINVAL.
Proof.
  unfold str2bt_addr_le.
  destruct (negb _); [intros; simplify_eq; by right|].
  destruct (str2bt_addr_loop _ _ _ _ _) as [[r a1]|]; [|done].
  cbn [mbind option_bind].
  destruct (negb _); [intros; simplify_eq; by right|].
  repeat (destruct (_ || _); [intros; simplify_eq; by left|]).
  intros; simplify_eq; by right.
Qed.

(** The text of six bytes is read back, with the type its name stands for. *)
Lemma str2bt_addr_le_text upper bs type addr T :
  length bs = 6%nat → Forall (λ b, 0 ≤ b < 256) bs →
  length (addr_val addr) = 6%nat →
  (type = str_public ∨ type = str_public_paren) ∧ T = BT_ADDR_LE_PUBLIC ∨
  (type = str_random ∨ type = str_random_paren) ∧ T = BT_ADDR_LE_RANDOM →
  str2bt_addr_le (addr_text upper bs) type addr
  = Some (0, BtAddrLe T (reverse bs)).
Proof.
  intros Hbs Hall Hval HT. destruct bs as [|b bs]; [done|].
  cbn [length] in Hbs. apply Forall_cons in Hall as [Hb Hall].
  assert (length bs = 5%nat) as Hbs5 by lia.
  pose proof (length_addr_text upper b bs) as Hlen. rewrite Hbs5 in Hlen.
  pose proof (str2bt_addr_loop_text upper bs b 1 0 addr
                Hb Hall eq_refl eq_refl) as Hloop.
  rewrite Hbs5 in Hloop. change (Z.of_nat 5) with 5 in Hloop.
  rewrite drop_ge, app_nil_r in Hloop by lia.
  rewrite str2bt_addr_le_loop, Hloop by (done || lia).
  cbn [Z.eqb negb addr_val].
  destruct HT as [[[-> | ->] ->]|[[-> | ->] ->]]; done.
Qed.

(** Six colons in front of a digit: the digits are shifted into the [type]
    member, which keeps them when the call then fails on the type name. *)
Example str2bt_addr_le_overwrites_type :
  str2bt_addr_le
    [58; 58; 58; 58; 58; 58; 49; 50; 58; 58; 58; 58; 58; 58; 58; 58; 58]
    [98; 111; 103; 117; 115] (BtAddrLe 7 [1; 2; 3; 4; 5; 6])
  = Some (- EINVAL, BtAddrLe 18 [1; 2; 3; 4; 5; 6]).
Proof. reflexivity. Qed.

(** X14.  [str2bt_addr_le] on any string.  A string that does not have 17
    characters is refused with [-EINVAL] and [*addr] untouched.  The call
    leaves [*addr] (where the program's behaviour is undefined) exactly when
    the loop comes, with every character before accepted, to a character
    other than a colon at a position (counted from 1) that is not a multiple
    of three and with more than six colons before it.  In every other case
    it returns 0 or [-EINVAL], and 0 exactly when every character is a
    colon or a hexadecimal digit, no digit stands at a position that is a
    multiple of three, and the type is one of [public], [(public)],
    [random] and [(random)]; a colon is accepted at every position.  When
    the call fails and no character other than a colon has more than five
    colons before it, the address type is left as it was. *)
Theorem str2bt_addr_le_accepts_iff str type addr :
  (length str ≠ 17%nat →
   str2bt_addr_le str type addr = Some (- EINVAL, addr)) ∧
  (str2bt_addr_le str type addr = None ↔
     length str = 17%nat ∧
     ∃ (k : nat) c,
       str !! k = Some c ∧ c ≠ 58 ∧ Z.rem (Z.of_nat k + 1) 3 ≠ 0 ∧
       6 < colons_before str k ∧
       ∀ (k' : nat) c', (k' < k)%nat → str !! k' = Some c' →
         c' = 58 ∨ (hex_char c' ∧ Z.rem (Z.of_nat k' + 1) 3 ≠ 0)) ∧
  (∀ ret addr', str2bt_addr_le str type addr = Some (ret, addr') →
     (ret = 0 ∨ ret = - EINVAL) ∧
     (ret = 0 ↔
        length str = 17%nat ∧
        (∀ (k : nat) c, str !! k = Some c →
           c = 58 ∨ (hex_char c ∧ Z.rem (Z.of_nat k + 1) 3 ≠ 0)) ∧
        (type = str_public ∨ type = str_public_paren ∨
         type = str_random ∨ type = str_random_paren)) ∧
     (ret ≠ 0 →
        (∀ (k : nat) c, str !! k = Some c → c ≠ 58 →
           colons_before str k ≤ 5) →
        addr_type addr' = addr_type addr)).
Proof.
  assert (∀ k : nat, Z.of_nat k + 1 = 1 + Z.of_nat k) as Hk by lia.
  setoid_rewrite Hk.
  split; [apply str2bt_addr_le_length|].
  destruct (decide (length str = 17%nat)) as [Hlen|Hlen].
  2: { rewrite (str2bt_addr_le_length str type addr Hlen). split.
       - split; [done|]. by intros [? _].
       - intros ret addr' [= <- <-]. split; [by right|].
         split; [|done]. split; [done|]. by intros [? _]. }
  rewrite (str2bt_addr_le_loop str type addr Hlen).
  pose proof (str2bt_addr_loop_none str 5 1 0 addr (Z.le_refl 5)) as Hnone.
  pose proof (str2bt_addr_loop_ret str 5 1 0 addr) as Hret.
  pose proof (str2bt_addr_loop_type str 5 1 0 addr) as Htype.
  assert (∀ k, 5 - colons_before str k < -1 ↔ 6 < colons_before str k) as Hcb
    by (intros; lia).
  setoid_rewrite Hcb in Hnone.
  destruct (str2bt_addr_loop str 5 1 0 addr) as [[r a1]|].
  2: { split; [|done]. split; [intros _; split; [done|]|done].
       by apply Hnone. }
  destruct (Hret r a1 eq_refl) as [Hr Hiff].
  specialize (Htype r a1).
  assert (Some (r, a1) = None ↔ False) as HF by done.
  split.
  { assert (∀ x : option (Z * bt_addr_le), is_Some x → x = None ↔ False) as HS
      by (intros x [? ->]; done).
    rewrite HS by (repeat case_match; by eexists).
    rewrite <- HF, Hnone. split; [done|]. by intros [_ ?]. }
  intros ret addr' Hrun.
  destruct (Z.eqb_spec r 0) as [->|Hr0]; cbn [negb] in Hrun.
  2: { simplify_eq. split; [by right|]. split.
       - split; [done|]. intros (_ & H & _). by apply Hiff in H.
       - intros _ Hin. apply Htype; [|done].
         intros k c Hl Hc. specialize (Hin k c Hl Hc). lia. }
  assert (∀ k c, str !! k = Some c →
            c = 58 ∨ (hex_char c ∧ Z.rem (1 + Z.of_nat k) 3 ≠ 0)) as Hall
    by by apply Hiff.
  repeat case_bool_decide; cbn [orb] in Hrun; simplify_eq;
    first [ split; [by left|]; split; [|done];
            split; [intros _; split_and!; [done|done|auto]|done]
          | split; [by right|]; split;
            [ split; [done|intros (_ & _ & [?|[?|[?|?]]]); done]
            | intros _ Hin; apply Htype; [|done];
              intros k c Hl Hc; specialize (Hin k c Hl Hc); lia ] ].
Qed.

Lemma str2bt_addr_le_accepts_iff_witness :
  ∃ addr', str2bt_addr_le (replicate 17 58) str_public_paren
             (BtAddrLe 7 [1; 2; 3; 4; 5; 6]) = Some (0, addr').
Proof.
  destruct (str2bt_addr_le (replicate 17 58) str_public_paren
              (BtAddrLe 7 [1; 2; 3; 4; 5; 6])) as [[ret addr']|] eqn:E;
    [|vm_compute in E; discriminate].
  exists addr'. do 2 f_equal.
  refine (proj2 (proj1 (proj2 (proj2 (proj2
            (str2bt_addr_le_accepts_iff (replicate 17 58) str_public_paren
               (BtAddrLe 7 [1; 2; 3; 4; 5; 6]))) ret addr' E))) _).
  split_and!.
  - reflexivity.
  - intros k c [-> _]%lookup_replicate. by left.
  - right. by left.
Defined.

(** X15.  Reading back the text of an address: for six bytes written as
    [XX:XX:XX:XX:XX:XX], in upper or in lower case, with one of the four
    type names, [str2bt_addr_le] stays within [*addr], returns 0, sets the
    type the name stands for and stores the bytes in reverse order, the last
    byte of the text at index 0.  Nothing of the address's previous contents
    is left. *)
Theorem str2bt_addr_le_reads_address_text upper bs type addr :
  length bs = 6%nat → Forall (λ b, 0 ≤ b < 256) bs →
  length (addr_val addr) = 6%nat →
  length (addr_text upper bs) = 17%nat ∧
  (type = str_public ∨ type = str_public_paren →
   str2bt_addr_le (addr_text upper bs) type addr
   = Some (0, BtAddrLe BT_ADDR_LE_PUBLIC (reverse bs))) ∧
  (type = str_random ∨ type = str_random_paren →
   str2bt_addr_le (addr_text upper bs) type addr
   = Some (0, BtAddrLe BT_ADDR_LE_RANDOM (reverse bs))).
Proof.
  intros Hbs Hall Hval. split_and!.
  - destruct bs as [|b bs]; [done|]. rewrite length_addr_text.
    cbn [length] in Hbs. lia.
  - intros H. apply str2bt_addr_le_text; auto.
  - intros H. apply str2bt_addr_le_text; auto.
Qed.

Lemma str2bt_addr_le_reads_address_text_witness :
  str2bt_addr_le (addr_text true [192; 255; 238; 18; 52; 86]) str_random
    (BtAddrLe 7 [1; 2; 3; 4; 5; 6])
  = Some (0, BtAddrLe BT_ADDR_LE_RANDOM (reverse [192; 255; 238; 18; 52; 86])).
Proof.
  refine (proj2 (proj2 (str2bt_addr_le_reads_address_text true
            [192; 255; 238; 18; 52; 86] str_random (BtAddrLe 7 [1; 2; 3; 4; 5; 6])
            _ _ _)) _).
  - reflexivity.
  - repeat constructor; lia.
  - reflexivity.
  - by left.
Defined.

(** X16.  The [connect] command.  With fewer than three arguments it
    returns [-EINVAL] and does nothing, and that is the only case in which
    it returns [-EINVAL]; otherwise, unless [str2bt_addr_le] left the
    variable [addr], it returns 0, also when the address is refused or the
    request fails.  It asks the network stack to connect only when
    [str2bt_addr_le] accepted the address, once, with the address as parsed,
    and then prints how the request went; a refused address is only
    reported.  For the text of six bytes and a known type name the request
    carries these bytes and this type, whatever the local variable held. *)
Theorem shell_cmd_connect_requests_parsed_address net_mgmt argv addr :
  let o := shell_cmd_connect net_mgmt argv addr in
  let p := str2bt_addr_le (argv !!! 1%nat) (argv !!! 2%nat) addr in
  let connect a :=
    Some (0, [EvNetMgmt (NET_REQUEST_BT_CONNECT a);
              EvPrintk (if net_mgmt (NET_REQUEST_BT_CONNECT a) =? 0
                        then MsgConnPending else MsgConnFailed)]) in
  ((length argv < 3)%nat → o = Some (- EINVAL, [])) ∧
  ((3 ≤ length argv)%nat → (o = None ↔ p = None)) ∧
  (∀ r evs, o = Some (r, evs) →
     (r = - EINVAL ↔ (length argv < 3)%nat) ∧
     (r = 0 ↔ (3 ≤ length argv)%nat)) ∧
  ((3 ≤ length argv)%nat → ∀ err addr1, p = Some (err, addr1) → err ≠ 0 →
     o = Some (0, [EvPrintk (MsgInvalidPeer (- EINVAL))])) ∧
  ((3 ≤ length argv)%nat → ∀ addr1, p = Some (0, addr1) →
     o = connect addr1) ∧
  (∀ cmd upper bs type rest,
     argv = cmd :: addr_text upper bs :: type :: rest →
     length bs = 6%nat → Forall (λ b, 0 ≤ b < 256) bs →
     length (addr_val addr) = 6%nat →
     ∀ T,
     (type = str_public ∨ type = str_public_paren) ∧ T = BT_ADDR_LE_PUBLIC ∨
     (type = str_random ∨ type = str_random_paren) ∧ T = BT_ADDR_LE_RANDOM →
     o = connect (BtAddrLe T (reverse bs))).
Proof.
  intros o p connect.
  assert ((length argv < 3)%nat → o = Some (- EINVAL, [])) as Hshort.
  { intros Hn. subst o. unfold shell_cmd_connect.
    destruct (Z.ltb_spec (Z.of_nat (length argv)) 3); [done|lia]. }
  assert ((3 ≤ length argv)%nat →
          o = match p with
              | None => None
              | Some (err, addr1) =>
                  if negb (err =? 0)
                  then Some (0, [EvPrintk (MsgInvalidPeer err)])
                  else connect addr1
              end) as Hlong.
  { intros Hn. subst o connect. unfold shell_cmd_connect.
    destruct (Z.ltb_spec (Z.of_nat (length argv)) 3); [lia|]. fold p.
    destruct p as [[err addr1]|]; [|done]. cbn [mbind option_bind].
    destruct (negb (err =? 0)); [done|].
    by destruct (net_mgmt (NET_REQUEST_BT_CONNECT addr1) =? 0). }
  assert (∀ err addr1, p = Some (err, addr1) → err = 0 ∨ err = - EINVAL)
    as Hp by (intros err addr1; apply str2bt_addr_le_ret).
  split_and!.
  - done.
  - intros Hn. rewrite (Hlong Hn).
    destruct p as [[err addr1]|]; [|done].
    unfold connect. destruct (negb (err =? 0)); done.
  - intros r evs Ho.
    destruct (decide (length argv < 3)%nat) as [Hn|Hn].
    + rewrite (Hshort Hn) in Ho. simplify_eq. split; [done|]. split; [done|lia].
    + assert (r = 0) as ->; [|split; split; (done || lia)].
      rewrite Hlong in Ho by lia. unfold connect in Ho.
      destruct p as [[err addr1]|]; [|done].
      destruct (negb (err =? 0)); by simplify_eq.
  - intros Hn err addr1 E Herr. rewrite (Hlong Hn), E.
    destruct (Hp _ _ E) as [->| ->]; done.
  - intros Hn addr1 E. by rewrite (Hlong Hn), E.
  - intros cmd upper bs type rest Hargv Hbs Hall Hval T Htype.
    rewrite Hlong by (rewrite Hargv; cbn; lia).
    assert (p = Some (0, BtAddrLe T (reverse bs))) as ->; [|done].
    subst p argv.
    change ((cmd :: addr_text upper bs :: type :: rest) !!! 1%nat)
      with (addr_text upper bs).
    change ((cmd :: addr_text upper bs :: type :: rest) !!! 2%nat) with type.
    by apply str2bt_addr_le_text.
Qed.

Lemma shell_cmd_connect_requests_parsed_address_witness :
  shell_cmd_connect (λ _, 0)
    [[99]; addr_text false [192; 255; 238; 18; 52; 86]; str_public]
    (BtAddrLe 7 [1; 2; 3; 4; 5; 6])
  = Some (0, [EvNetMgmt (NET_REQUEST_BT_CONNECT
                (BtAddrLe BT_ADDR_LE_PUBLIC
                   (reverse [192; 255; 238; 18; 52; 86])));
              EvPrintk MsgConnPending]).
Proof.
  refine (proj2 (proj2 (proj2 (proj2 (proj2
            (shell_cmd_connect_requests_parsed_address (λ _, 0)
               [[99]; addr_text false [192; 255; 238; 18; 52; 86]; str_public]
               (BtAddrLe 7 [1; 2; 3; 4; 5; 6]))))))
            [99] false [192; 255; 238; 18; 52; 86] str_public [] _ _ _ _ _ _).
  - reflexivity.
  - reflexivity.
  - repeat constructor; lia.
  - reflexivity.
  - left. split; [by left|reflexivity].
Defined.

(** The [scan] command hands its argument to the network stack unchecked:
    with fewer than two arguments it returns [-EINVAL] and does nothing,
    otherwise it makes one request and returns 0 whatever the answer. *)
Lemma shell_cmd_scan_ret net_mgmt argv :
  let o := shell_cmd_scan net_mgmt argv in
  (o.1 = - EINVAL ↔ (length argv < 2)%nat) ∧
  ((length argv < 2)%nat → o.2 = []) ∧
  ((2 ≤ length argv)%nat →
   o.1 = 0 ∧ o.2 !! 0%nat = Some (EvNetMgmt (NET_REQUEST_BT_SCAN (argv !!! 1%nat)))).
Proof.
  unfold shell_cmd_scan.
  destruct (Z.ltb_spec (Z.of_nat (length argv)) 2) as [Hn|Hn]; cbn [fst snd].
  - split_and!; [split; [lia|done]|done|lia].
  - destruct (negb _); cbn [fst snd];
      (split_and!; [split; [done|lia]|lia|done]).
Qed.
